(** * MoviePilot: the Plex gateway module and the user schema validator

    A shallow embedding of [app/modules/plex/__init__.py] (class
    [PlexModule]) and of [app/schemas/user.py] (validator
    [UserBase.parse_json_fields]), with the properties of the gateway's
    registry, fallback and guard logic stated over it. *)

From Stdlib Require Import List String ZArith Lia.
From Stdlib Require Import SpecFloat.
Import ListNotations.
Open Scope string_scope.
Open Scope list_scope.

(** ** Python values and truthiness *)

(** The values that can reach a pydantic field or come back from
    [json.loads]: [None], booleans, integers, floats (binary64, as sign,
    mantissa and exponent), strings, lists and dicts with string keys. *)
#[warnings="-register-all"]
Inductive PyValue : Type :=
| PyNone : PyValue
| PyBool : bool -> PyValue
| PyInt : Z -> PyValue
| PyFloat : spec_float -> PyValue
| PyStr : string -> PyValue
| PyList : list PyValue -> PyValue
| PyDict : list (string * PyValue) -> PyValue.

(** [bool(value)]: [None], [False], zero (of either sign, for a float),
    the empty string and the empty containers are falsy; everything else
    (a NaN included) is truthy. *)
Definition truthy (value : PyValue) : bool :=
  match value with
  | PyNone => false
  | PyBool b => b
  | PyInt z => negb (Z.eqb z 0)
  | PyFloat f => match f with S754_zero _ => false | _ => true end
  | PyStr s => negb (String.eqb s "")
  | PyList l => match l with [] => false | _ :: _ => true end
  | PyDict d => match d with [] => false | _ :: _ => true end
  end.

(** [isinstance(value, dict)] *)
Definition is_dict (value : PyValue) : bool :=
  match value with PyDict _ => true | _ => false end.

(** [isinstance(value, str)] *)
Definition is_str (value : PyValue) : bool :=
  match value with PyStr _ => true | _ => false end.

(** Truthiness of the optional values the gateway branches on. *)
Definition truthy_str (s : string) : bool := negb (String.eqb s "").

Definition truthy_opt_str (s : option string) : bool :=
  match s with Some s' => truthy_str s' | None => false end.

Definition truthy_list {A : Type} (l : list A) : bool :=
  match l with [] => false | _ :: _ => true end.

Definition truthy_opt_list {A : Type} (l : option (list A)) : bool :=
  match l with Some l' => truthy_list l' | None => false end.

(** ** Exceptions *)

(** The exceptions that matter below.  [JSONDecodeError] is the one the
    validator catches; [ValueError] is a plain [ValueError], which an
    [except json.JSONDecodeError] clause does not catch. *)
Inductive Exception : Type := JSONDecodeError | RecursionError | ValueError.

(** What a call gives back: the value it returns or the exception it
    raises. *)
Inductive Outcome (A : Type) : Type :=
| Returns : A -> Outcome A
| Raises : Exception -> Outcome A.

Arguments Returns {A} _.
Arguments Raises {A} _.

(** ** app/schemas/user.py *)

Module UserBase.

Section Validator.

(** [json.loads] of the Python standard library, on a [str] argument: it
    returns the decoded document or raises: [JSONDecodeError] on a text
    it cannot decode, and other exceptions besides ([RecursionError] on
    deep nesting, [ValueError] on an integer literal over the digit
    limit). *)
Variable json_loads : string -> Outcome PyValue.

(** The [pre=True] validator of the fields [permissions] and [settings]:
<<
    if value:
        if isinstance(value, str):
            try:
                return json.loads(value)
            except json.JSONDecodeError:
                return {}
        return value
    return {}
>>  Only [JSONDecodeError] is caught; any other exception of
    [json.loads] leaves the validator. *)
Definition parse_json_fields (value : PyValue) : Outcome PyValue :=
  if truthy value then
    match value with
    | PyStr s =>
        match json_loads s with
        | Returns parsed => Returns parsed
        | Raises JSONDecodeError => Returns (PyDict [])
        | Raises e => Raises e
        end
    | _ => Returns value
    end
  else Returns (PyDict []).

End Validator.

End UserBase.

(** ** Data exchanged with a backend ([app.schemas], [app.core.context]) *)

(** [MediaType]: the module names [MOVIE] and [TV]; [UNKNOWN] stands for
    the members it never names. *)
Inductive MediaType : Type := MOVIE | TV | UNKNOWN.

(** The fields of [MediaInfo] the gateway reads; [type] is [None] on a
    [MediaInfo] whose type was never set. *)
Record MediaInfo : Type := {
  type : option MediaType;
  title : string;
  original_title : string;
  year : string;
  tmdb_id : option Z
}.

(** [{season: [episodes]}], in the order the backend built it. *)
Definition Seasons : Type := list (Z * list Z).

Record MediaServerItem : Type := {
  item_id : string;
  item_title : string
}.

Record ExistMediaInfo : Type := {
  exist_type : MediaType;
  seasons : Seasons;
  server : string;
  itemid : option string
}.

Record MediaServerSeasonInfo : Type := {
  season : Z;
  episodes : list Z
}.

Record Statistic : Type := {
  movie_count : Z;
  tv_count : Z;
  episode_count : Z
}.

Record MediaServerLibrary : Type := {
  library_id : string;
  library_name : string
}.

Record MediaServerPlayItem : Type := {
  play_id : string;
  play_title : string
}.

Record WebhookEventInfo : Type := {
  event : string;
  channel : string;
  item_name : string
}.

Record MediaServerConf : Type := {
  conf_name : string;
  conf_type : string;
  conf_enabled : bool
}.

(** ** The capability interface of a backend connection

    [app.modules.plex.plex.Plex] is the transport collaborator of the
    gateway.  The gateway only calls the methods below; a connection is a
    value of a type [P] carrying its own state.  [reconnect] is the one
    method the gateway calls for its effect, so it is a state transformer;
    the others are read as queries on the connection's current state.  A
    method that yields nothing ([None]) is an [option].  The methods are
    taken to return normally: the gateway has no handler of its own around
    them. *)
Class Backend (P : Type) : Type := {
  is_inactive : P -> bool;
  reconnect : P -> P;
  get_librarys : P -> bool -> list MediaServerLibrary;
  get_webhook_message : P -> string -> option WebhookEventInfo;
  get_iteminfo : P -> string -> option MediaServerItem;
  get_movies :
    P -> string -> string -> string -> option Z ->
    option (list MediaServerItem);
  get_tv_episodes :
    P -> option string -> option string -> option string -> option Z ->
    option string -> option string * option Seasons;
  get_medias_count : P -> option Statistic;
  get_resume : P -> Z -> list MediaServerPlayItem;
  get_latest : P -> Z -> list MediaServerPlayItem;
  get_play_url : P -> string -> option string
}.

(** ** Backend calls as an observable effect *)

Inductive Op : Type :=
| IsInactive | Reconnect | GetLibrarys | GetWebhookMessage | GetIteminfo
| GetMovies | GetTvEpisodes | GetMediasCount | GetResume | GetLatest
| GetPlayUrl.

(** One call of method [call_op] on the connection registered as
    [call_server]. *)
Record Call : Type := { call_server : string; call_op : Op }.

(** A computation of the gateway: the backend calls it made, in order, and
    its value. *)
Definition W (A : Type) : Type := (list Call * A)%type.

Definition ret {A : Type} (a : A) : W A := ([], a).

Definition bind {A B : Type} (m : W A) (k : A -> W B) : W B :=
  let (t1, a) := m in
  let (t2, b) := k a in
  (t1 ++ t2, b).

(** [call name op v]: method [op] of the connection [name] is invoked and
    answers [v]. *)
Definition call {A : Type} (name : string) (op : Op) (v : A) : W A :=
  ([{| call_server := name; call_op := op |}], v).

Definition calls {A : Type} (m : W A) : list Call := fst m.
Definition value {A : Type} (m : W A) : A := snd m.

Declare Scope gw_scope.
Delimit Scope gw_scope with gw.
Notation "x <- m ;; k" := (bind m (fun x => k))
  (at level 100, m at next level, right associativity) : gw_scope.
Notation "' p <- m ;; k" := (bind m (fun p => k))
  (at level 100, p pattern, m at next level, right associativity) : gw_scope.
Open Scope gw_scope.

(** ** app/modules/plex/__init__.py *)

Module PlexModule.

(** The state the module inherits from its service base: the configured
    servers and the connections built from them, both dicts keyed by name
    and therefore in insertion order. *)
Record t (P : Type) : Type := {
  _configs : list (string * MediaServerConf);
  _instances : list (string * P)
}.

Arguments _configs {P} _.
Arguments _instances {P} _.

(** [d.get(key)] on an insertion-ordered dict. *)
Fixpoint dict_get {V : Type} (d : list (string * V)) (key : string)
  : option V :=
  match d with
  | [] => None
  | (k, v) :: rest => if String.eqb k key then Some v else dict_get rest key
  end.

(** [d.keys()] and [d.values()] *)
Definition keys {V : Type} (d : list (string * V)) : list string :=
  map fst d.
Definition values {V : Type} (d : list (string * V)) : list V :=
  map snd d.

Section Gateway.

Context {P : Type} `{Backend P}.

(** [get_config(name, mtype)] of the media-server base class; its code is
    not part of this module, and nothing below depends on what it
    answers beyond its being absent or present. *)
Variable get_config : t P -> string -> string -> option MediaServerConf.

(** Modelled from the spec: [get_instance] of the service base class,
    which is not in this module.  The registry contract is
    [get(name) -> handle|absent]: the connection registered under
    [name], if there is one. *)
Definition get_instance (self : t P) (name : string) : option P :=
  dict_get (_instances self) name.

(** *** test *)

(** The loop of [test]: every visited connection is probed, and
    reconnected first when it is inactive; the connections are returned
    in the state the loop left them. *)
Fixpoint test_loop (instances : list (string * P))
  : W (list (string * P) * (bool * string)) :=
  match instances with
  | [] => ret ([], (true, ""))
  | (name, server) :: rest =>
      inactive <- call name IsInactive (is_inactive server) ;;
      server' <- (if inactive
                  then call name Reconnect (reconnect server)
                  else ret server) ;;
      librarys <- call name GetLibrarys (get_librarys server' false) ;;
      if negb (truthy_list librarys)
      then ret ((name, server') :: rest,
                (false, ("无法连接Plex服务器：" ++ name)%string))
      else
        ' (rest', r) <- test_loop rest ;;
        ret ((name, server') :: rest', r)
  end.

Definition test (self : t P) : W (t P * option (bool * string)) :=
  if negb (truthy_list (_instances self)) then ret (self, None)
  else
    ' (instances', r) <- test_loop (_instances self) ;;
    ret ({| _configs := _configs self; _instances := instances' |},
         Some r).

(** *** scheduler_job *)

(** The periodic sweep: every connection is asked whether it is inactive
    and is reconnected when it is; the log line is not modelled.  The
    connections are returned in the state the sweep left them. *)
Fixpoint scheduler_job_loop (instances : list (string * P))
  : W (list (string * P)) :=
  match instances with
  | [] => ret []
  | (name, server) :: rest =>
      inactive <- call name IsInactive (is_inactive server) ;;
      server' <- (if inactive
                  then call name Reconnect (reconnect server)
                  else ret server) ;;
      rest' <- scheduler_job_loop rest ;;
      ret ((name, server') :: rest')
  end.

Definition scheduler_job (self : t P) : W (t P) :=
  instances' <- scheduler_job_loop (_instances self) ;;
  ret {| _configs := _configs self; _instances := instances' |}.

(** *** webhook_parser *)

(** The fallback loop over [self._configs.values()]. *)
Fixpoint webhook_loop (self : t P) (body : string)
  (confs : list MediaServerConf) : W (option WebhookEventInfo) :=
  match confs with
  | [] => ret None
  | conf :: rest =>
      if negb (String.eqb (conf_type conf) "plex")
      then webhook_loop self body rest
      else
        match get_instance self (conf_name conf) with
        | Some server =>
            result <- call (conf_name conf) GetWebhookMessage
                        (get_webhook_message server body) ;;
            match result with
            | Some r => ret (Some r)
            | None => webhook_loop self body rest
            end
        | None => webhook_loop self body rest
        end
  end.

(** [args] is the mapping of the request parameters; [form] is not
    read. *)
Definition webhook_parser (self : t P) (body form : string)
  (args : list (string * string)) : W (option WebhookEventInfo) :=
  let source := dict_get args "source" in
  if truthy_opt_str source then
    match source with
    | Some source =>
        match get_config self source "plex" with
        | None => ret None
        | Some server_config =>
            match get_instance self source with
            | None => ret None
            | Some server =>
                call source GetWebhookMessage
                  (get_webhook_message server body)
            end
        end
    | None => ret None
    end
  else webhook_loop self body (values (_configs self)).

(** *** media_exists *)

(** The direct lookup by id of the movie branch: [Some] is the early
    [return], [None] falls through to the search by title. *)
Definition movie_by_id (name : string) (server : P)
  (itemid : option string) : W (option ExistMediaInfo) :=
  if truthy_opt_str itemid then
    match itemid with
    | Some id =>
        movie <- call name GetIteminfo (get_iteminfo server id) ;;
        match movie with
        | Some movie =>
            ret (Some {| exist_type := MOVIE;
                         seasons := [];
                         server := name;
                         itemid := Some (item_id movie) |})
        | None => ret None
        end
    | None => ret None
    end
  else ret None.

(** The search of the movie branch: [None] is [continue]. *)
Definition movie_by_title (name : string) (server : P)
  (mediainfo : MediaInfo) : W (option ExistMediaInfo) :=
  movies <- call name GetMovies
              (get_movies server (title mediainfo)
                 (original_title mediainfo) (year mediainfo)
                 (tmdb_id mediainfo)) ;;
  match movies with
  | Some (first :: _) =>
      ret (Some {| exist_type := MOVIE;
                   seasons := [];
                   server := name;
                   itemid := Some (item_id first) |})
  | Some [] | None => ret None
  end.

(** The TV branch: [None] is [continue]. *)
Definition tv_episodes (name : string) (server : P)
  (mediainfo : MediaInfo) (itemid : option string)
  : W (option ExistMediaInfo) :=
  ' (item_id, tvs) <- call name GetTvEpisodes
                        (get_tv_episodes server
                           (Some (title mediainfo))
                           (Some (original_title mediainfo))
                           (Some (year mediainfo))
                           (tmdb_id mediainfo) itemid) ;;
  if negb (truthy_opt_list tvs) then ret None
  else
    match tvs with
    | Some tvs =>
        ret (Some {| exist_type := TV;
                     seasons := tvs;
                     server := name;
                     itemid := item_id |})
    | None => ret None
    end.

(** One turn of the loop of [media_exists] on the instance [name]:
    [Some] is what the turn returns, [None] is a turn that ends in
    [continue]. *)
Definition media_exists_body (name : string) (server : P)
  (mediainfo : MediaInfo) (itemid : option string)
  : W (option ExistMediaInfo) :=
  match type mediainfo with
  | Some MOVIE =>
      found <- movie_by_id name server itemid ;;
      match found with
      | Some e => ret (Some e)
      | None => movie_by_title name server mediainfo
      end
  | _ => tv_episodes name server mediainfo itemid
  end.

Fixpoint media_exists_loop (instances : list (string * P))
  (mediainfo : MediaInfo) (itemid : option string)
  : W (option ExistMediaInfo) :=
  match instances with
  | [] => ret None
  | (name, server) :: rest =>
      found <- media_exists_body name server mediainfo itemid ;;
      match found with
      | Some e => ret (Some e)
      | None => media_exists_loop rest mediainfo itemid
      end
  end.

Definition media_exists (self : t P) (mediainfo : MediaInfo)
  (itemid : option string) : W (option ExistMediaInfo) :=
  media_exists_loop (_instances self) mediainfo itemid.

(** *** media_statistic *)

(** The loop of [media_statistic]; [media_statistics] is the list being
    built.  The test before the [append] reads the list being built,
    not the record just fetched. *)
Fixpoint media_statistic_loop (servers : list (string * P))
  (media_statistics : list (option Statistic))
  : W (list (option Statistic)) :=
  match servers with
  | [] => ret media_statistics
  | (name, server) :: rest =>
      media_statistic <- call name GetMediasCount
                           (get_medias_count server) ;;
      if negb (truthy_list media_statistics)
      then media_statistic_loop rest media_statistics
      else media_statistic_loop rest
             (media_statistics ++ [media_statistic])
  end.

Definition media_statistic (self : t P) (server : option string)
  : W (option (list (option Statistic))) :=
  if truthy_opt_str server then
    match server with
    | Some name =>
        match get_instance self name with
        | None => ret None
        | Some server =>
            media_statistics <- media_statistic_loop [(name, server)] [] ;;
            ret (Some media_statistics)
        end
    | None => ret None
    end
  else
    media_statistics <- media_statistic_loop (_instances self) [] ;;
    ret (Some media_statistics).

(** *** Single-instance passthroughs *)

Definition mediaserver_iteminfo (self : t P) (server item_id : string)
  : W (option MediaServerItem) :=
  match get_instance self server with
  | Some instance => call server GetIteminfo (get_iteminfo instance item_id)
  | None => ret None
  end.

Definition mediaserver_tv_episodes (self : t P) (server item_id : string)
  : W (option (list MediaServerSeasonInfo)) :=
  match get_instance self server with
  | None => ret None
  | Some instance =>
      ' (_, seasoninfo) <- call server GetTvEpisodes
                             (get_tv_episodes instance None None None None
                                (Some item_id)) ;;
      if negb (truthy_opt_list seasoninfo) then ret (Some [])
      else
        match seasoninfo with
        | Some seasoninfo =>
            ret (Some (map (fun '(season, episodes) =>
                              {| season := season; episodes := episodes |})
                         seasoninfo))
        | None => ret (Some [])
        end
  end.

Definition mediaserver_playing (self : t P) (server : string) (count : Z)
  : W (list MediaServerPlayItem) :=
  match get_instance self server with
  | None => ret []
  | Some instance => call server GetResume (get_resume instance count)
  end.

Definition mediaserver_latest (self : t P) (server : string) (count : Z)
  : W (list MediaServerPlayItem) :=
  match get_instance self server with
  | None => ret []
  | Some instance => call server GetLatest (get_latest instance count)
  end.

Definition mediaserver_play_url (self : t P) (server item_id : string)
  : W (option string) :=
  match get_instance self server with
  | None => ret None
  | Some instance => call server GetPlayUrl (get_play_url instance item_id)
  end.


End Gateway.

End PlexModule.

(** ** Notions the properties are stated with *)

Import PlexModule.

(** Fallback resolution: the candidates are tried in order and the first
    one that yields a result decides; later candidates are not tried. *)
Fixpoint first_some {A R : Type} (f : A -> W (option R)) (l : list A)
  : W (option R) :=
  match l with
  | [] => ret None
  | a :: rest =>
      found <- f a ;;
      match found with
      | Some r => ret (Some r)
      | None => first_some f rest
      end
  end.

(** The backend calls made when every candidate of [l] is tried. *)
Definition calls_of {A R : Type} (f : A -> W R) (l : list A) : list Call :=
  flat_map (fun a => calls (f a)) l.

Section Notions.

Context {P : Type} `{Backend P}.

(** What one instance answers to an existence query. *)
Definition reports (mediainfo : MediaInfo) (itemid : option string)
  (instance : string * P) : W (option ExistMediaInfo) :=
  media_exists_body (fst instance) (snd instance) mediainfo itemid.

(** What one instance makes of a webhook payload. *)
Definition decodes (body : string) (instance : string * P)
  : W (option WebhookEventInfo) :=
  call (fst instance) GetWebhookMessage
    (get_webhook_message (snd instance) body).

(** The instances a webhook without a source hint may be tried on: in
    configuration order, the configurations of type [plex] whose name has
    a registered connection. *)
Fixpoint candidates (self : PlexModule.t P) (confs : list MediaServerConf)
  : list (string * P) :=
  match confs with
  | [] => []
  | conf :: rest =>
      if String.eqb (conf_type conf) "plex" then
        match get_instance self (conf_name conf) with
        | Some server => (conf_name conf, server) :: candidates self rest
        | None => candidates self rest
        end
      else candidates self rest
  end.

(** The state in which [test] lists the libraries of a connection: after
    a reconnect when it was inactive. *)
Definition probed (server : P) : P :=
  if is_inactive server then reconnect server else server.

(** Whether a connection lists its libraries when [test] probes it. *)
Definition lists_librarys (server : P) : bool :=
  truthy_list (get_librarys (probed server) false).

(** [mediainfo.type == MediaType.MOVIE] *)
Definition is_movie (mediainfo : MediaInfo) : bool :=
  match type mediainfo with Some MOVIE => true | _ => false end.

(** The backend calls of a trace that are on the instance [name]. *)
Definition calls_on (name : string) (trace : list Call) : list Call :=
  filter (fun c => String.eqb (call_server c) name) trace.

(** How many backend calls one turn of [media_exists] may make. *)
Definition turn_budget (mediainfo : MediaInfo) (itemid : option string)
  : nat :=
  if andb (is_movie mediainfo) (truthy_opt_str itemid) then 2 else 1.

(** An instance as [test] or the sweep leaves it. *)
Definition probed_instance (instance : string * P) : string * P :=
  (fst instance, probed (snd instance)).

(** The backend calls of one turn of the sweep. *)
Definition sweep_calls (instance : string * P) : list Call :=
  {| call_server := fst instance; call_op := IsInactive |} ::
  (if is_inactive (snd instance)
   then [{| call_server := fst instance; call_op := Reconnect |}]
   else []).

(** The backend calls of one turn of [test]. *)
Definition probe_calls (instance : string * P) : list Call :=
  sweep_calls instance ++
  [{| call_server := fst instance; call_op := GetLibrarys |}].

(** The diagnostic of [test] for the instance [name]. *)
Definition unreachable (name : string) : string :=
  ("无法连接Plex服务器：" ++ name)%string.

(** The statistics as the specification words them: the count record of
    each instance, in iteration order, the empty or absent ones left
    out. *)
Definition collected_counts (instances : list (string * P))
  : list (option Statistic) :=
  filter (fun c => match c with Some _ => true | None => false end)
    (map (fun i => get_medias_count (snd i)) instances).

End Notions.

(** ** A connection that answers from tables

    Used to run the gateway on concrete registries. *)
Record Canned : Type := {
  canned_inactive : bool;
  canned_reachable : bool;
  canned_librarys : list MediaServerLibrary;
  canned_movies : list MediaServerItem;
  canned_shows : list (string * Seasons);
  canned_count : option Statistic;
  canned_events : list (string * WebhookEventInfo)
}.

Definition canned_reconnect (c : Canned) : Canned :=
  {| canned_inactive := negb (canned_reachable c);
     canned_reachable := canned_reachable c;
     canned_librarys := canned_librarys c;
     canned_movies := canned_movies c;
     canned_shows := canned_shows c;
     canned_count := canned_count c;
     canned_events := canned_events c |}.

Definition canned_tv (c : Canned) (t : option string)
  : option string * option Seasons :=
  match t with
  | Some t' =>
      match dict_get (canned_shows c) t' with
      | Some s => (Some t', Some s)
      | None => (None, None)
      end
  | None => (None, None)
  end.

#[global] Instance Canned_Backend : Backend Canned := {
  is_inactive c := canned_inactive c;
  reconnect c := canned_reconnect c;
  get_librarys c _ := if canned_inactive c then [] else canned_librarys c;
  get_webhook_message c body := dict_get (canned_events c) body;
  get_iteminfo c id :=
    find (fun m => String.eqb (item_id m) id) (canned_movies c);
  get_movies c t _ _ _ :=
    if canned_inactive c then None
    else Some (filter (fun m => String.eqb (item_title m) t)
                 (canned_movies c));
  get_tv_episodes c t _ _ _ _ := canned_tv c t;
  get_medias_count c := canned_count c;
  get_resume _ _ := [];
  get_latest _ _ := [];
  get_play_url _ _ := None
}.

(** [get_config] as a lookup by name that checks the type. *)
Definition config_by_name (self : PlexModule.t Canned) (name mtype : string)
  : option MediaServerConf :=
  match dict_get (_configs self) name with
  | Some conf => if String.eqb (conf_type conf) mtype then Some conf else None
  | None => None
  end.

Definition movie (id t : string) : MediaServerItem :=
  {| item_id := id; item_title := t |}.

Definition plex_conf (name : string) : string * MediaServerConf :=
  (name, {| conf_name := name; conf_type := "plex"; conf_enabled := true |}).

Definition played : WebhookEventInfo :=
  {| event := "media.play"; channel := "plex"; item_name := "Nightfall" |}.

Definition library : MediaServerLibrary :=
  {| library_id := "1"; library_name := "Movies" |}.

Definition counted : Statistic :=
  {| movie_count := 12; tv_count := 3; episode_count := 40 |}.

(** A live connection holding one movie, one show and one decodable
    payload. *)
Definition stocked (id : string) : Canned :=
  {| canned_inactive := false;
     canned_reachable := true;
     canned_librarys := [library];
     canned_movies := [movie id "Nightfall"; movie "extra" "Nightfall"];
     canned_shows := [("Harbour", [(1, [1; 2]); (2, [1])])]%Z;
     canned_count := Some counted;
     canned_events := [("play", played)] |}.

(** A live connection with nothing in it. *)
Definition bare : Canned :=
  {| canned_inactive := false;
     canned_reachable := true;
     canned_librarys := [library];
     canned_movies := [];
     canned_shows := [];
     canned_count := None;
     canned_events := [] |}.

(** A connection that is down and comes back at the next reconnect. *)
Definition asleep : Canned :=
  {| canned_inactive := true;
     canned_reachable := true;
     canned_librarys := [library];
     canned_movies := [];
     canned_shows := [];
     canned_count := None;
     canned_events := [] |}.

(** A show query. *)
Definition harbour : MediaInfo :=
  {| type := Some TV; title := "Harbour"; original_title := "Harbour";
     year := "2019"; tmdb_id := None |}.


(** A connection that is down and stays down. *)
Definition down : Canned :=
  {| canned_inactive := true;
     canned_reachable := false;
     canned_librarys := [library];
     canned_movies := [];
     canned_shows := [];
     canned_count := None;
     canned_events := [] |}.

Definition gateway (instances : list (string * Canned))
  : PlexModule.t Canned :=
  {| _configs := map (fun i => plex_conf (fst i)) instances;
     _instances := instances |}.

Definition nightfall : MediaInfo :=
  {| type := Some MOVIE; title := "Nightfall"; original_title := "Nightfall";
     year := "2021"; tmdb_id := Some 555%Z |}.

(** [piece * n] on strings. *)
Fixpoint repeat_text (piece : string) (n : nat) : string :=
  match n with
  | O => ""
  | S n' => (piece ++ repeat_text piece n')%string
  end.

(** A finite excerpt of [json.loads], enough to run the validator on a few
    texts: four documents, a thousand opening brackets (too deep to
    decode), an integer literal of 4301 digits (over the digit limit);
    any other text stands for one that cannot be decoded. *)
Definition json_loads_excerpt (text : string) : Outcome PyValue :=
  if String.eqb text (repeat_text "[" 1000) then Raises RecursionError
  else if String.eqb text (repeat_text "1" 4301) then Raises ValueError
  else
    match dict_get [("{}", PyDict []);
                    ("[1, 2]", PyList [PyInt 1; PyInt 2]);
                    ("7", PyInt 7);
                    ("null", PyNone)] text with
    | Some document => Returns document
    | None => Raises JSONDecodeError
    end.

(** * Properties *)

(** ** The validator of [UserBase] *)

Section ValidatorFacts.

Variable json_loads : string -> Outcome PyValue.

Lemma parse_json_fields_falsy (v : PyValue) :
  truthy v = false ->
  UserBase.parse_json_fields json_loads v = Returns (PyDict []).
Proof.
  intros Hv. unfold UserBase.parse_json_fields. now rewrite Hv.
Qed.

Lemma parse_json_fields_str (s : string) :
  truthy (PyStr s) = true ->
  UserBase.parse_json_fields json_loads (PyStr s) =
  match json_loads s with
  | Returns parsed => Returns parsed
  | Raises JSONDecodeError => Returns (PyDict [])
  | Raises e => Raises e
  end.
Proof.
  intros Hv. unfold UserBase.parse_json_fields. now rewrite Hv.
Qed.

Lemma parse_json_fields_other (v : PyValue) :
  truthy v = true -> is_str v = false ->
  UserBase.parse_json_fields json_loads v = Returns v.
Proof.
  intros Hv Hs. unfold UserBase.parse_json_fields. rewrite Hv.
  destruct v; try reflexivity. discriminate Hs.
Qed.

End ValidatorFacts.

(** C10, as the code has it, case by case: a falsy input gives the empty
    dict; a non-empty string that [json.loads] decodes gives the decoded
    value, of whatever type; a non-empty string on which [json.loads]
    raises [JSONDecodeError] gives the empty dict; a non-empty string on
    which [json.loads] raises anything else makes the validator raise the
    same; any other truthy input comes back unchanged, of whatever
    type. *)
Theorem parse_json_fields_cases :
  forall (json_loads : string -> Outcome PyValue) (v : PyValue),
    (truthy v = false ->
     UserBase.parse_json_fields json_loads v = Returns (PyDict [])) /\
    (forall s parsed,
        v = PyStr s -> truthy v = true -> json_loads s = Returns parsed ->
        UserBase.parse_json_fields json_loads v = Returns parsed) /\
    (forall s,
        v = PyStr s -> truthy v = true ->
        json_loads s = Raises JSONDecodeError ->
        UserBase.parse_json_fields json_loads v = Returns (PyDict [])) /\
    (forall s e,
        v = PyStr s -> truthy v = true ->
        json_loads s = Raises e -> e <> JSONDecodeError ->
        UserBase.parse_json_fields json_loads v = Raises e) /\
    (truthy v = true -> is_str v = false ->
     UserBase.parse_json_fields json_loads v = Returns v).
Proof.
  intros json_loads v. repeat split.
  - apply parse_json_fields_falsy.
  - intros s parsed -> Hv Hj.
    rewrite parse_json_fields_str by exact Hv. now rewrite Hj.
  - intros s -> Hv Hj.
    rewrite parse_json_fields_str by exact Hv. now rewrite Hj.
  - intros s e -> Hv Hj He.
    rewrite parse_json_fields_str by exact Hv. rewrite Hj.
    destruct e; [congruence | reflexivity | reflexivity].
  - apply parse_json_fields_other.
Qed.

Lemma parse_json_fields_cases_witness :
  UserBase.parse_json_fields json_loads_excerpt (PyStr "") =
    Returns (PyDict []) /\
  UserBase.parse_json_fields json_loads_excerpt (PyStr "[1, 2]") =
    Returns (PyList [PyInt 1; PyInt 2]) /\
  UserBase.parse_json_fields json_loads_excerpt (PyStr "{oops") =
    Returns (PyDict []) /\
  UserBase.parse_json_fields json_loads_excerpt
    (PyStr (repeat_text "[" 1000)) = Raises RecursionError /\
  UserBase.parse_json_fields json_loads_excerpt (PyInt 5) =
    Returns (PyInt 5).
Proof.
  split; [| split; [| split; [| split]]].
  - apply (proj1 (parse_json_fields_cases json_loads_excerpt (PyStr ""))).
    reflexivity.
  - apply (proj1 (proj2 (parse_json_fields_cases json_loads_excerpt
                           (PyStr "[1, 2]"))) "[1, 2]");
      reflexivity.
  - apply (proj1 (proj2 (proj2 (parse_json_fields_cases json_loads_excerpt
                                  (PyStr "{oops")))) "{oops");
      reflexivity.
  - apply (proj1 (proj2 (proj2 (proj2
                   (parse_json_fields_cases json_loads_excerpt
                      (PyStr (repeat_text "[" 1000))))))
             (repeat_text "[" 1000) RecursionError);
      try reflexivity.
    discriminate.
  - apply (proj2 (proj2 (proj2 (proj2
                   (parse_json_fields_cases json_loads_excerpt
                      (PyInt 5))))));
      reflexivity.
Defined.

(** C10 as stated fails: the integer [5] is truthy and not a string, so it
    comes back as it is, and it is not a dict. *)
Lemma parse_json_fields_not_always_dict :
  ~ (forall (json_loads : string -> Outcome PyValue) (v : PyValue),
        exists d,
          UserBase.parse_json_fields json_loads v = Returns (PyDict d)).
Proof.
  intros Hall.
  destruct (Hall (fun _ => Raises JSONDecodeError) (PyInt 5)) as [d Hd].
  discriminate Hd.
Qed.

(** ** Fallback loops *)

Section FirstSome.

Context {A R : Type}.
Variable f : A -> W (option R).

Lemma first_some_cons_none (a : A) (l : list A) :
  value (f a) = None ->
  value (first_some f (a :: l)) = value (first_some f l) /\
  calls (first_some f (a :: l)) = calls (f a) ++ calls (first_some f l).
Proof.
  simpl. unfold bind, value, calls.
  destruct (f a) as [ta [r|]]; simpl; [discriminate |].
  intros _. now destruct (first_some f l).
Qed.

Lemma first_some_cons_some (a : A) (l : list A) (r : R) :
  value (f a) = Some r ->
  value (first_some f (a :: l)) = Some r /\
  calls (first_some f (a :: l)) = calls (f a).
Proof.
  simpl. unfold bind, value, calls, ret.
  destruct (f a) as [ta [r'|]]; simpl; [| discriminate].
  intros [= ->]. now rewrite app_nil_r.
Qed.

(** The first candidate that yields a result decides, and no candidate
    after it is tried. *)
Lemma first_some_split (before after : list A) (a : A) (r : R) :
  (forall b, In b before -> value (f b) = None) ->
  value (f a) = Some r ->
  value (first_some f (before ++ a :: after)) = Some r /\
  calls (first_some f (before ++ a :: after)) =
    calls_of f (before ++ [a]).
Proof.
  intros Hbefore Ha.
  induction before as [| b before IH].
  - destruct (first_some_cons_some a after r Ha) as [Hv Hc].
    simpl app. rewrite Hv, Hc. unfold calls_of. simpl.
    now rewrite app_nil_r.
  - assert (Hb : value (f b) = None) by (apply Hbefore; now left).
    destruct (first_some_cons_none b (before ++ a :: after) Hb)
      as [Hv Hc].
    destruct IH as [IHv IHc].
    { intros b' Hin. apply Hbefore. now right. }
    change ((b :: before) ++ a :: after)
      with (b :: (before ++ a :: after)).
    rewrite Hv, Hc, IHv, IHc. now split.
Qed.

(** When no candidate yields a result, all of them are tried and the
    loop yields none. *)
Lemma first_some_none (l : list A) :
  (forall b, In b l -> value (f b) = None) ->
  value (first_some f l) = None /\
  calls (first_some f l) = calls_of f l.
Proof.
  induction l as [| b l IH]; intros Hall.
  - now split.
  - assert (Hb : value (f b) = None) by (apply Hall; now left).
    destruct (first_some_cons_none b l Hb) as [Hv Hc].
    destruct IH as [IHv IHc].
    { intros b' Hin. apply Hall. now right. }
    rewrite Hv, Hc, IHv, IHc. now split.
Qed.

(** Every list of candidates is in one of the two situations. *)
Lemma first_some_cases (l : list A) :
  (exists before a after r,
      l = before ++ a :: after /\
      (forall b, In b before -> value (f b) = None) /\
      value (f a) = Some r) \/
  (forall b, In b l -> value (f b) = None).
Proof.
  induction l as [| b l IH].
  - right. intros b [].
  - destruct (value (f b)) as [r|] eqn:Hb.
    + left. exists [], b, l, r. repeat split; auto. intros b' [].
    + destruct IH as [(before & a & after & r & -> & Hbefore & Ha) | Hall].
      * left. exists (b :: before), a, after, r. repeat split; auto.
        intros b' [<- | Hin]; auto.
      * right. intros b' [<- | Hin]; auto.
Qed.

(** A result of the loop is the result of its first successful
    candidate. *)
Lemma first_some_inv (l : list A) (r : R) :
  value (first_some f l) = Some r ->
  exists before a after,
    l = before ++ a :: after /\
    (forall b, In b before -> value (f b) = None) /\
    value (f a) = Some r.
Proof.
  intros Hr.
  destruct (first_some_cases l)
    as [(before & a & after & r' & -> & Hbefore & Ha) | Hall].
  - destruct (first_some_split before after a r' Hbefore Ha) as [Hv _].
    rewrite Hv in Hr. injection Hr as <-.
    now exists before, a, after.
  - destruct (first_some_none l Hall) as [Hv _]. congruence.
Qed.

End FirstSome.

(** ** Lookups in the registry *)

Lemma dict_get_in {V : Type} (d : list (string * V)) (key : string) :
  In key (keys d) -> exists v, dict_get d key = Some v.
Proof.
  induction d as [| [k v] d IH]; simpl; [intros [] |].
  intros Hin. destruct (String.eqb k key) eqn:Hk.
  - now exists v.
  - apply IH. destruct Hin as [-> | Hin]; [| exact Hin].
    now rewrite String.eqb_refl in Hk.
Qed.

Lemma dict_get_none {V : Type} (d : list (string * V)) (key : string) :
  dict_get d key = None <-> ~ In key (keys d).
Proof.
  split.
  - intros Hnone Hin. destruct (dict_get_in d key Hin) as [v Hv]. congruence.
  - induction d as [| [k v] d IH]; simpl; [reflexivity |].
    intros Hnot. destruct (String.eqb k key) eqn:Hk.
    + apply String.eqb_eq in Hk. exfalso. apply Hnot. now left.
    + apply IH. intros Hin. apply Hnot. now right.
Qed.

(** ** Existence resolution *)

Section ExistenceFacts.

Context {P : Type} `{Backend P}.

Lemma media_exists_loop_first_some (instances : list (string * P))
  (mediainfo : MediaInfo) (itemid : option string) :
  media_exists_loop instances mediainfo itemid =
  first_some (reports mediainfo itemid) instances.
Proof.
  induction instances as [| [name server] rest IH]; [reflexivity |].
  simpl. unfold reports at 1. simpl. now rewrite IH.
Qed.

(** An id lookup that finds the item ends the turn at once. *)
Lemma reports_movie_by_id (name : string) (server : P)
  (mediainfo : MediaInfo) (id : string) (found : MediaServerItem) :
  type mediainfo = Some MOVIE ->
  truthy_str id = true ->
  get_iteminfo server id = Some found ->
  reports mediainfo (Some id) (name, server) =
  ([{| call_server := name; call_op := GetIteminfo |}],
   Some {| exist_type := MOVIE; seasons := []; server := name;
           itemid := Some (item_id found) |}).
Proof.
  intros Hty Hid Hfound.
  unfold reports, media_exists_body, movie_by_id. simpl.
  rewrite Hty, Hid, Hfound. reflexivity.
Qed.

(** Without a usable id the turn is decided by the first hit of the
    search. *)
Lemma reports_movie_by_title (name : string) (server : P)
  (mediainfo : MediaInfo) (itemid : option string)
  (first : MediaServerItem) (others : list MediaServerItem) :
  type mediainfo = Some MOVIE ->
  value (movie_by_id name server itemid) = None ->
  get_movies server (title mediainfo) (original_title mediainfo)
    (year mediainfo) (tmdb_id mediainfo) = Some (first :: others) ->
  reports mediainfo itemid (name, server) =
  (calls (movie_by_id name server itemid) ++
     [{| call_server := name; call_op := GetMovies |}],
   Some {| exist_type := MOVIE; seasons := []; server := name;
           itemid := Some (item_id first) |}).
Proof.
  intros Hty Hid Hmovies.
  unfold reports, media_exists_body. simpl. rewrite Hty.
  unfold bind at 1.
  destruct (movie_by_id name server itemid) as [tr [e|]];
    [discriminate Hid |].
  unfold movie_by_title. rewrite Hmovies. reflexivity.
Qed.

Lemma movie_by_id_skipped (name : string) (server : P)
  (itemid : option string) :
  truthy_opt_str itemid = false \/
  (exists id, itemid = Some id /\ get_iteminfo server id = None) ->
  value (movie_by_id name server itemid) = None.
Proof.
  unfold movie_by_id.
  intros [Hfalsy | (id & -> & Hnone)].
  - now rewrite Hfalsy.
  - destruct (truthy_opt_str (Some id)); [| reflexivity].
    now rewrite Hnone.
Qed.

(** Whatever a turn returns names the instance of that turn. *)
Lemma reports_server (mediainfo : MediaInfo) (itemid : option string)
  (name : string) (server0 : P) (r : ExistMediaInfo) :
  value (reports mediainfo itemid (name, server0)) = Some r ->
  server r = name.
Proof.
  unfold reports, media_exists_body. simpl.
  assert (Htv : value (tv_episodes name server0 mediainfo itemid) = Some r ->
                server r = name).
  { unfold tv_episodes. simpl.
    destruct (get_tv_episodes _ _ _ _ _ _) as [iid [[| s tvs]|]]; simpl;
      try discriminate.
    now intros [= <-]. }
  destruct (type mediainfo) as [[| |]|]; try exact Htv.
  - unfold movie_by_id, movie_by_title.
    destruct (truthy_opt_str itemid); [destruct itemid as [id|] |];
      simpl.
    + destruct (get_iteminfo server0 id); simpl.
      * now intros [= <-].
      * destruct (get_movies _ _ _ _ _) as [[| first others]|]; simpl;
          try discriminate.
        now intros [= <-].
    + destruct (get_movies _ _ _ _ _) as [[| first others]|]; simpl;
        try discriminate.
      now intros [= <-].
    + destruct (get_movies _ _ _ _ _) as [[| first others]|]; simpl;
        try discriminate.
      now intros [= <-].
Qed.


End ExistenceFacts.


Section MovieFacts.

Context {P : Type} `{Backend P}.

(** C3: on a movie, at the instance the loop has reached: an id that is
    given and found ends the call with that instance's name and the
    item's id, the one backend call on that instance being the id
    lookup; with no id, or an id the instance does not know, the
    instance is searched by title, original title, year and TMDB id,
    and the first hit alone gives the id returned under that
    instance's name. *)
Theorem media_exists_movie_paths :
  forall (self : PlexModule.t P) (mediainfo : MediaInfo)
         (itemid : option string) (before after : list (string * P))
         (name : string) (server0 : P),
    type mediainfo = Some MOVIE ->
    _instances self = before ++ (name, server0) :: after ->
    (forall b, In b before -> value (reports mediainfo itemid b) = None) ->
    (forall id found,
        itemid = Some id -> truthy_str id = true ->
        get_iteminfo server0 id = Some found ->
        value (media_exists self mediainfo itemid) =
          Some {| exist_type := MOVIE; seasons := []; server := name;
                  itemid := Some (item_id found) |} /\
        calls (media_exists self mediainfo itemid) =
          calls_of (reports mediainfo itemid) before ++
          [{| call_server := name; call_op := GetIteminfo |}]) /\
    (forall first others,
        truthy_opt_str itemid = false \/
        (exists id, itemid = Some id /\ get_iteminfo server0 id = None) ->
        get_movies server0 (title mediainfo) (original_title mediainfo)
          (year mediainfo) (tmdb_id mediainfo) = Some (first :: others) ->
        value (media_exists self mediainfo itemid) =
          Some {| exist_type := MOVIE; seasons := []; server := name;
                  itemid := Some (item_id first) |} /\
        calls (media_exists self mediainfo itemid) =
          calls_of (reports mediainfo itemid) before ++
          calls (movie_by_id name server0 itemid) ++
          [{| call_server := name; call_op := GetMovies |}]).
Proof.
  intros self mediainfo itemid before after name server0 Hty Hsplit
    Hbefore.
  unfold media_exists. rewrite media_exists_loop_first_some, Hsplit.
  split.
  - intros id found -> Hid Hfound.
    pose proof (reports_movie_by_id name server0 mediainfo id found
                  Hty Hid Hfound) as Hturn.
    destruct (first_some_split (reports mediainfo (Some id)) before after
                (name, server0) _ Hbefore (f_equal snd Hturn))
      as [Hv Hc].
    rewrite Hv, Hc. split; [reflexivity |].
    unfold calls_of. rewrite flat_map_app. simpl.
    rewrite Hturn. simpl. reflexivity.
  - intros first others Hskip Hmovies.
    pose proof (reports_movie_by_title name server0 mediainfo itemid
                  first others Hty
                  (movie_by_id_skipped name server0 itemid Hskip)
                  Hmovies) as Hturn.
    destruct (first_some_split (reports mediainfo itemid) before after
                (name, server0) _ Hbefore (f_equal snd Hturn))
      as [Hv Hc].
    rewrite Hv, Hc. split; [reflexivity |].
    unfold calls_of. rewrite flat_map_app. simpl.
    rewrite Hturn. simpl. now rewrite app_nil_r.
Qed.

(** C4: the [server] of a result is the name of an instance of the
    registry the call ran on. *)
Theorem media_exists_server_registered :
  forall (self : PlexModule.t P) (mediainfo : MediaInfo)
         (itemid : option string) (r : ExistMediaInfo),
    value (media_exists self mediainfo itemid) = Some r ->
    In (server r) (keys (_instances self)) /\
    exists instance, get_instance self (server r) = Some instance.
Proof.
  intros self mediainfo itemid r. unfold media_exists.
  rewrite media_exists_loop_first_some. intros Hr.
  destruct (first_some_inv _ _ _ Hr)
    as (before & [name server0] & after & Hsplit & _ & Hturn).
  apply reports_server in Hturn.
  assert (Hin : In (server r) (keys (_instances self))).
  { rewrite Hsplit, Hturn. unfold keys. rewrite map_app.
    apply in_or_app. right. now left. }
  split; [exact Hin |].
  unfold get_instance. now apply dict_get_in.
Qed.

End MovieFacts.

Lemma media_exists_movie_paths_witness :
  (value (media_exists
            (gateway [("A", bare); ("B", stocked "b1")]) nightfall
            (Some "extra")) =
     Some {| exist_type := MOVIE; seasons := []; server := "B";
             itemid := Some "extra" |} /\
   calls (media_exists
            (gateway [("A", bare); ("B", stocked "b1")]) nightfall
            (Some "extra")) =
     [{| call_server := "A"; call_op := GetIteminfo |};
      {| call_server := "A"; call_op := GetMovies |};
      {| call_server := "B"; call_op := GetIteminfo |}]) /\
  value (media_exists
           (gateway [("A", bare); ("B", stocked "b1")]) nightfall
           (Some "gone")) =
    Some {| exist_type := MOVIE; seasons := []; server := "B";
            itemid := Some "b1" |}.
Proof.
  split.
  - refine (proj1 (media_exists_movie_paths
                     (gateway [("A", bare); ("B", stocked "b1")]) nightfall
                     (Some "extra") [("A", bare)] [] "B" (stocked "b1")
                     _ _ _)
              "extra" (movie "extra" "Nightfall") _ _ _);
      try reflexivity.
    intros b [<- | []]. reflexivity.
  - refine (proj1 (proj2 (media_exists_movie_paths
                            (gateway [("A", bare); ("B", stocked "b1")])
                            nightfall (Some "gone") [("A", bare)] [] "B"
                            (stocked "b1") _ _ _)
                     (movie "b1" "Nightfall") [movie "extra" "Nightfall"]
                     _ _));
      try reflexivity.
    + intros b [<- | []]. reflexivity.
    + right. exists "gone". split; reflexivity.
Defined.

Lemma media_exists_server_registered_witness :
  In "B" (keys (_instances (gateway [("A", bare); ("B", stocked "b1")]))) /\
  exists instance,
    get_instance (gateway [("A", bare); ("B", stocked "b1")]) "B" =
      Some instance.
Proof.
  apply (media_exists_server_registered
           (gateway [("A", bare); ("B", stocked "b1")]) nightfall None
           {| exist_type := MOVIE; seasons := []; server := "B";
              itemid := Some "b1" |}).
  reflexivity.
Defined.

(** ** Webhook routing *)

Section WebhookFacts.

Context {P : Type} `{Backend P}.
Variable get_config :
  PlexModule.t P -> string -> string -> option MediaServerConf.

Lemma webhook_loop_first_some (self : PlexModule.t P) (body : string)
  (confs : list MediaServerConf) :
  webhook_loop self body confs =
  first_some (decodes body) (candidates self confs).
Proof.
  induction confs as [| conf rest IH]; [reflexivity |].
  simpl. destruct (String.eqb (conf_type conf) "plex"); simpl.
  - destruct (get_instance self (conf_name conf)) as [server0|]; simpl.
    + unfold decodes at 1. simpl. now rewrite IH.
    + exact IH.
  - exact IH.
Qed.

Lemma calls_of_decodes (body : string) (l : list (string * P)) :
  calls_of (decodes body) l =
  map (fun i => {| call_server := fst i; call_op := GetWebhookMessage |})
    l.
Proof.
  unfold calls_of. induction l as [| i l IH]; [reflexivity |].
  simpl. now f_equal.
Qed.

(** A candidate comes from a configuration of type [plex] whose name is
    registered. *)
Lemma candidates_in (self : PlexModule.t P) (confs : list MediaServerConf)
  (name : string) (server0 : P) :
  In (name, server0) (candidates self confs) ->
  exists conf,
    In conf confs /\ conf_type conf = "plex" /\ conf_name conf = name /\
    get_instance self name = Some server0.
Proof.
  induction confs as [| conf rest IH]; simpl; [intros [] |].
  destruct (String.eqb (conf_type conf) "plex") eqn:Hty.
  - destruct (get_instance self (conf_name conf)) as [s|] eqn:Hget.
    + intros [[= <- <-] | Hin].
      * exists conf. apply String.eqb_eq in Hty. auto.
      * destruct (IH Hin) as (c & Hc & Hrest). exists c. auto.
    + intros Hin. destruct (IH Hin) as (c & Hc & Hrest). exists c. auto.
  - intros Hin. destruct (IH Hin) as (c & Hc & Hrest). exists c. auto.
Qed.

(** C5, as the code has it: a non-empty source hint that names no
    registered instance gives none, and no backend is called, whatever
    the other instances could decode. *)
Theorem webhook_parser_unknown_source :
  forall (self : PlexModule.t P) (body form : string)
         (args : list (string * string)) (source : string),
    dict_get args "source" = Some source ->
    truthy_str source = true ->
    ~ In source (keys (_instances self)) ->
    value (webhook_parser get_config self body form args) = None /\
    calls (webhook_parser get_config self body form args) = [].
Proof.
  intros self body form args source Harg Htruthy Habsent.
  apply dict_get_none in Habsent.
  unfold webhook_parser, get_instance. rewrite Harg. simpl.
  rewrite Htruthy, Habsent.
  now destruct (get_config self source "plex").
Qed.

(** C6: without a source hint the payload is offered, in configuration
    order, to the registered instances whose configuration is of type
    [plex]; the first one that decodes it gives the result and the ones
    after it are not called; an instance that decodes nothing is passed
    over; when none decodes it the result is none. *)
Theorem webhook_parser_fallback :
  forall (self : PlexModule.t P) (body form : string)
         (args : list (string * string)),
    truthy_opt_str (dict_get args "source") = false ->
    (forall before instance after r,
        candidates self (values (_configs self)) =
          before ++ instance :: after ->
        (forall b, In b before ->
                   get_webhook_message (snd b) body = None) ->
        get_webhook_message (snd instance) body = Some r ->
        value (webhook_parser get_config self body form args) = Some r /\
        calls (webhook_parser get_config self body form args) =
          map (fun i => {| call_server := fst i;
                           call_op := GetWebhookMessage |})
            (before ++ [instance])) /\
    ((forall b, In b (candidates self (values (_configs self))) ->
                get_webhook_message (snd b) body = None) ->
     value (webhook_parser get_config self body form args) = None /\
     calls (webhook_parser get_config self body form args) =
       map (fun i => {| call_server := fst i;
                        call_op := GetWebhookMessage |})
         (candidates self (values (_configs self)))) /\
    ((exists before instance after r,
         candidates self (values (_configs self)) =
           before ++ instance :: after /\
         (forall b, In b before ->
                    get_webhook_message (snd b) body = None) /\
         get_webhook_message (snd instance) body = Some r) \/
     (forall b, In b (candidates self (values (_configs self))) ->
                get_webhook_message (snd b) body = None)) /\
    (forall name server0,
        In (name, server0) (candidates self (values (_configs self))) ->
        exists conf,
          In conf (values (_configs self)) /\ conf_type conf = "plex" /\
          conf_name conf = name /\
          get_instance self name = Some server0).
Proof.
  intros self body form args Hsource.
  unfold webhook_parser. rewrite Hsource.
  rewrite webhook_loop_first_some.
  split; [| split; [| split]].
  - intros before instance after r Hsplit Hbefore Hr.
    rewrite Hsplit, <- (calls_of_decodes body).
    exact (first_some_split (decodes body) before after instance r
             Hbefore Hr).
  - intros Hall. rewrite <- (calls_of_decodes body).
    exact (first_some_none (decodes body) _ Hall).
  - exact (first_some_cases (decodes body) _).
  - apply candidates_in.
Qed.

End WebhookFacts.

Lemma webhook_parser_unknown_source_witness :
  value (webhook_parser config_by_name (gateway [("A", stocked "a1")])
           "play" "" [("source", "B")]) = None /\
  calls (webhook_parser config_by_name (gateway [("A", stocked "a1")])
           "play" "" [("source", "B")]) = [].
Proof.
  apply (webhook_parser_unknown_source config_by_name
           (gateway [("A", stocked "a1")]) "play" "" [("source", "B")] "B");
    try reflexivity.
  simpl. intros [Heq | []]. discriminate Heq.
Defined.

(** C5 as stated fails: the empty string is a source hint that names no
    registered instance, yet with it the parser falls back to the
    registered instances and returns what [B] decodes. *)
Lemma webhook_parser_empty_source_falls_back :
  dict_get [("source", "")] "source" = Some "" /\
  ~ In "" (keys (_instances (gateway [("B", stocked "b1")]))) /\
  webhook_parser config_by_name (gateway [("B", stocked "b1")])
    "play" "" [("source", "")] =
    ([{| call_server := "B"; call_op := GetWebhookMessage |}],
     Some played).
Proof.
  split; [reflexivity | split; [| reflexivity]].
  simpl. intros [Heq | []]. discriminate Heq.
Qed.

Lemma webhook_parser_fallback_witness :
  value (webhook_parser config_by_name
           (gateway [("A", bare); ("B", stocked "b1"); ("C", stocked "c1")])
           "play" "" []) = Some played /\
  calls (webhook_parser config_by_name
           (gateway [("A", bare); ("B", stocked "b1"); ("C", stocked "c1")])
           "play" "" []) =
    [{| call_server := "A"; call_op := GetWebhookMessage |};
     {| call_server := "B"; call_op := GetWebhookMessage |}].
Proof.
  refine (proj1 (webhook_parser_fallback config_by_name
                   (gateway [("A", bare); ("B", stocked "b1");
                             ("C", stocked "c1")])
                   "play" "" [] _)
            [("A", bare)] ("B", stocked "b1") [("C", stocked "c1")]
            played _ _ _);
    try reflexivity.
  intros b [<- | []]. reflexivity.
Defined.

(** ** Statistics *)

Section StatisticFacts.

Context {P : Type} `{Backend P}.

(** Started on the empty list, the loop asks every server for its counts
    and keeps none of them. *)
Lemma media_statistic_loop_nil (servers : list (string * P)) :
  value (media_statistic_loop servers []) = [] /\
  calls (media_statistic_loop servers []) =
    map (fun i => {| call_server := fst i; call_op := GetMediasCount |})
      servers.
Proof.
  induction servers as [| [name server0] rest [IHv IHc]]; [now split |].
  simpl. unfold value, calls in *.
  destruct (media_statistic_loop rest []) as [tr v]. simpl in *.
  subst. now split.
Qed.

Lemma media_statistic_all (self : PlexModule.t P)
  (server0 : option string) :
  truthy_opt_str server0 = false ->
  value (media_statistic self server0) = Some [].
Proof.
  intros Hfalsy. unfold media_statistic. rewrite Hfalsy.
  destruct (media_statistic_loop_nil (_instances self)) as [Hv _].
  unfold value in *. simpl.
  destruct (media_statistic_loop (_instances self) []) as [tr v].
  simpl in *. now subst.
Qed.

(** C7, as the code has it: a non-empty server name that is not
    registered gives none, with no backend call and no error. *)
Theorem media_statistic_unknown_server :
  forall (self : PlexModule.t P) (name : string),
    truthy_str name = true ->
    ~ In name (keys (_instances self)) ->
    value (media_statistic self (Some name)) = None /\
    calls (media_statistic self (Some name)) = [].
Proof.
  intros self name Htruthy Habsent.
  apply dict_get_none in Habsent.
  unfold media_statistic, get_instance. simpl.
  rewrite Htruthy, Habsent. now split.
Qed.

End StatisticFacts.

Lemma media_statistic_unknown_server_witness :
  value (media_statistic (gateway [("A", stocked "a1")]) (Some "B")) = None /\
  calls (media_statistic (gateway [("A", stocked "a1")]) (Some "B")) = [].
Proof.
  apply (media_statistic_unknown_server (gateway [("A", stocked "a1")]) "B");
    try reflexivity.
  simpl. intros [Heq | []]. discriminate Heq.
Defined.

(** C7 as stated fails: for the unregistered name [B] the answer is none,
    which is not the empty sequence. *)
Lemma media_statistic_unknown_server_not_empty_sequence :
  value (media_statistic (gateway [("A", stocked "a1")]) (Some "B")) <>
  Some [].
Proof.
  discriminate.
Qed.

(** C1 fails on the code: on a registry whose one instance has a count
    record, a call without a server name asks the instance for it and
    returns the empty list, where the record was to be collected. *)
Theorem media_statistic_discards_counts :
  value (media_statistic (gateway [("A", stocked "a1")]) None) = Some [] /\
  calls (media_statistic (gateway [("A", stocked "a1")]) None) =
    [{| call_server := "A"; call_op := GetMediasCount |}] /\
  collected_counts (_instances (gateway [("A", stocked "a1")])) =
    [Some counted].
Proof.
  split; [| split].
  - now apply media_statistic_all.
  - reflexivity.
  - reflexivity.
Qed.

(** ** Connectivity test *)

Section TestFacts.

Context {P : Type} `{Backend P}.

(** One turn of the loop: an instance that lists no library ends it with
    the failure that names it; otherwise the rest decides. *)
Lemma test_loop_cons (name : string) (server0 : P)
  (rest : list (string * P)) :
  snd (value (test_loop ((name, server0) :: rest))) =
  if lists_librarys server0 then snd (value (test_loop rest))
  else (false, unreachable name).
Proof.
  unfold lists_librarys, probed. simpl.
  destruct (is_inactive server0); simpl.
  - destruct (get_librarys (reconnect server0) false); simpl;
      [reflexivity |].
    now destruct (test_loop rest) as [tr [rest' r]].
  - destruct (get_librarys server0 false); simpl; [reflexivity |].
    now destruct (test_loop rest) as [tr [rest' r]].
Qed.

Lemma test_loop_all (instances : list (string * P)) :
  (forall i, In i instances -> lists_librarys (snd i) = true) ->
  snd (value (test_loop instances)) = (true, "").
Proof.
  induction instances as [| [name server0] rest IH]; intros Hall;
    [reflexivity |].
  rewrite test_loop_cons.
  pose proof (Hall (name, server0) (or_introl eq_refl)) as Hhere.
  simpl in Hhere. rewrite Hhere.
  apply IH. intros i Hin. apply Hall. now right.
Qed.

Lemma test_loop_some (instances : list (string * P)) :
  (exists i, In i instances /\ lists_librarys (snd i) = false) ->
  exists name server0,
    In (name, server0) instances /\ lists_librarys server0 = false /\
    snd (value (test_loop instances)) = (false, unreachable name).
Proof.
  induction instances as [| [name server0] rest IH];
    intros (i & Hin & Hi); [destruct Hin |].
  rewrite test_loop_cons.
  destruct (lists_librarys server0) eqn:Hhere.
  - destruct IH as (n & s & Hn & Hs & Hr).
    { destruct Hin as [<- | Hin].
      - simpl in Hi. congruence.
      - now exists i. }
    exists n, s. repeat split; auto. now right.
  - exists name, server0. repeat split; auto. now left.
Qed.

Lemma test_loop_true (instances : list (string * P)) (message : string) :
  snd (value (test_loop instances)) = (true, message) ->
  forall i, In i instances -> lists_librarys (snd i) = true.
Proof.
  induction instances as [| [name server0] rest IH]; intros Hr i Hin;
    [destruct Hin |].
  rewrite test_loop_cons in Hr.
  destruct (lists_librarys server0) eqn:Hhere; [| discriminate Hr].
  destruct Hin as [<- | Hin]; [exact Hhere | now apply IH].
Qed.

Lemma test_nonempty (self : PlexModule.t P) :
  _instances self <> [] ->
  snd (value (test self)) =
  Some (snd (value (test_loop (_instances self)))).
Proof.
  intros Hne. unfold test.
  destruct (_instances self) as [| i rest] eqn:Hi; [congruence |].
  cbn [truthy_list negb].
  unfold bind, value.
  now destruct (test_loop (i :: rest)) as [tr [instances' r]].
Qed.

(** C8: on an empty registry the test answers none and calls nothing;
    when some instance lists no library it answers false with the
    message that names such an instance; it answers true only when every
    instance lists its libraries, and does so then. *)
Theorem test_fails_closed :
  forall (self : PlexModule.t P),
    (_instances self = [] ->
     value (test self) = (self, None) /\ calls (test self) = []) /\
    ((exists i, In i (_instances self) /\
                lists_librarys (snd i) = false) ->
     exists name server0,
       In (name, server0) (_instances self) /\
       lists_librarys server0 = false /\
       snd (value (test self)) = Some (false, unreachable name)) /\
    (forall message,
        snd (value (test self)) = Some (true, message) ->
        forall i, In i (_instances self) ->
                  lists_librarys (snd i) = true) /\
    (_instances self <> [] ->
     (forall i, In i (_instances self) ->
                lists_librarys (snd i) = true) ->
     snd (value (test self)) = Some (true, "")).
Proof.
  intros self. split; [| split; [| split]].
  - intros Hempty. unfold test. rewrite Hempty. now split.
  - intros Hsome.
    assert (Hne : _instances self <> []).
    { destruct Hsome as (i & Hin & _). intros Hnil.
      rewrite Hnil in Hin. destruct Hin. }
    rewrite (test_nonempty self Hne).
    destruct (test_loop_some _ Hsome) as (n & s & Hn & Hs & Hr).
    exists n, s. now rewrite Hr.
  - intros message Hr i Hin.
    assert (Hne : _instances self <> []).
    { intros Hnil. rewrite Hnil in Hin. destruct Hin. }
    rewrite (test_nonempty self Hne) in Hr. injection Hr as Hr.
    eapply test_loop_true; eauto.
  - intros Hne Hall. rewrite (test_nonempty self Hne).
    now rewrite test_loop_all.
Qed.

End TestFacts.

Lemma test_fails_closed_witness :
  (value (test (gateway [])) = (gateway [], None) /\
   calls (test (gateway [])) = []) /\
  (exists name server0,
      In (name, server0)
        (_instances (gateway [("A", stocked "a1"); ("B", down)])) /\
      lists_librarys server0 = false /\
      snd (value (test (gateway [("A", stocked "a1"); ("B", down)]))) =
        Some (false, unreachable name)) /\
  snd (value (test (gateway [("A", stocked "a1"); ("B", bare)]))) =
    Some (true, "").
Proof.
  split; [| split].
  - apply (proj1 (test_fails_closed (gateway []))). reflexivity.
  - apply (proj1 (proj2 (test_fails_closed
                           (gateway [("A", stocked "a1"); ("B", down)])))).
    exists ("B", down). split; [right; left |]; reflexivity.
  - apply (proj2 (proj2 (proj2 (test_fails_closed
                                  (gateway [("A", stocked "a1");
                                            ("B", bare)]))))).
    + discriminate.
    + intros i [<- | [<- | []]]; reflexivity.
Defined.

(** ** Single-instance passthroughs *)

Section PassthroughFacts.

Context {P : Type} `{Backend P}.

(** C9: addressed to a name that is not registered, item info, TV
    episodes, the playing list, the latest list and the play URL answer
    none or the empty list at once, with no backend call. *)
Theorem passthrough_unknown_server :
  forall (self : PlexModule.t P) (name item : string) (count : Z),
    ~ In name (keys (_instances self)) ->
    mediaserver_iteminfo self name item = ret None /\
    mediaserver_tv_episodes self name item = ret None /\
    mediaserver_playing self name count = ret [] /\
    mediaserver_latest self name count = ret [] /\
    mediaserver_play_url self name item = ret None.
Proof.
  intros self name item count Habsent.
  apply dict_get_none in Habsent.
  unfold mediaserver_iteminfo, mediaserver_tv_episodes,
    mediaserver_playing, mediaserver_latest, mediaserver_play_url,
    get_instance.
  rewrite Habsent. repeat split.
Qed.

End PassthroughFacts.

Lemma passthrough_unknown_server_witness :
  mediaserver_iteminfo (gateway [("A", stocked "a1")]) "B" "a1" =
    ([], None) /\
  mediaserver_tv_episodes (gateway [("A", stocked "a1")]) "B" "a1" =
    ([], None) /\
  mediaserver_playing (gateway [("A", stocked "a1")]) "B" 20 = ([], []) /\
  mediaserver_latest (gateway [("A", stocked "a1")]) "B" 20 = ([], []) /\
  mediaserver_play_url (gateway [("A", stocked "a1")]) "B" "a1" =
    ([], None).
Proof.
  apply (passthrough_unknown_server (gateway [("A", stocked "a1")])
           "B" "a1" 20%Z).
  simpl. intros [Heq | []]. discriminate Heq.
Defined.

(** ** The connectivity test and the sweep as state transformers *)

Section SweepFacts.

Context {P : Type} `{Backend P}.

Lemma test_loop_step (name : string) (server0 : P)
  (rest : list (string * P)) :
  test_loop ((name, server0) :: rest) =
  if lists_librarys server0
  then (probe_calls (name, server0) ++ calls (test_loop rest),
        ((name, probed server0) :: fst (value (test_loop rest)),
         snd (value (test_loop rest))))
  else (probe_calls (name, server0),
        ((name, probed server0) :: rest, (false, unreachable name))).
Proof.
  unfold lists_librarys, probed, probe_calls, sweep_calls. simpl.
  destruct (is_inactive server0); simpl.
  - destruct (get_librarys (reconnect server0) false); simpl;
      [reflexivity |].
    destruct (test_loop rest) as [tr [rest' r]]. simpl.
    now rewrite app_nil_r.
  - destruct (get_librarys server0 false); simpl; [reflexivity |].
    destruct (test_loop rest) as [tr [rest' r]]. simpl.
    now rewrite app_nil_r.
Qed.

Lemma scheduler_job_loop_step (name : string) (server0 : P)
  (rest : list (string * P)) :
  scheduler_job_loop ((name, server0) :: rest) =
  (sweep_calls (name, server0) ++ calls (scheduler_job_loop rest),
   (name, probed server0) :: value (scheduler_job_loop rest)).
Proof.
  unfold probed, sweep_calls. simpl.
  destruct (is_inactive server0); simpl;
    destruct (scheduler_job_loop rest) as [tr rest']; simpl;
    now rewrite app_nil_r.
Qed.

Lemma scheduler_job_loop_spec (instances : list (string * P)) :
  scheduler_job_loop instances =
  (flat_map sweep_calls instances, map probed_instance instances).
Proof.
  induction instances as [| [name server0] rest IH]; [reflexivity |].
  rewrite scheduler_job_loop_step, IH. reflexivity.
Qed.

Lemma scheduler_job_spec (self : PlexModule.t P) :
  scheduler_job self =
  (flat_map sweep_calls (_instances self),
   {| _configs := _configs self;
      _instances := map probed_instance (_instances self) |}).
Proof.
  unfold scheduler_job. rewrite scheduler_job_loop_spec. simpl.
  now rewrite app_nil_r.
Qed.

Lemma test_unfold (self : PlexModule.t P) :
  _instances self <> [] ->
  test self =
  (calls (test_loop (_instances self)),
   ({| _configs := _configs self;
       _instances := fst (value (test_loop (_instances self))) |},
    Some (snd (value (test_loop (_instances self)))))).
Proof.
  intros Hne. unfold test.
  destruct (_instances self) as [| i rest] eqn:Hi; [congruence |].
  cbn [truthy_list negb]. unfold bind, value, calls.
  destruct (test_loop (i :: rest)) as [tr [instances' r]]. simpl.
  now rewrite app_nil_r.
Qed.

Lemma nil_or_not {A : Type} (l : list A) : l = [] \/ l <> [].
Proof. destruct l; [now left | right; discriminate]. Qed.

Lemma app_cons_not_nil {A : Type} (l1 l2 : list A) (a : A) :
  l1 ++ a :: l2 <> [].
Proof. now destruct l1. Qed.

Lemma test_loop_first_failure (before after : list (string * P))
  (name : string) (server0 : P) :
  (forall b, In b before -> lists_librarys (snd b) = true) ->
  lists_librarys server0 = false ->
  test_loop (before ++ (name, server0) :: after) =
  (flat_map probe_calls (before ++ [(name, server0)]),
   (map probed_instance (before ++ [(name, server0)]) ++ after,
    (false, unreachable name))).
Proof.
  intros Hbefore Hfail.
  induction before as [| [n s] before IH].
  - simpl app. rewrite test_loop_step, Hfail. simpl.
    now rewrite app_nil_r.
  - change (((n, s) :: before) ++ (name, server0) :: after)
      with ((n, s) :: (before ++ (name, server0) :: after)).
    rewrite test_loop_step.
    pose proof (Hbefore (n, s) (or_introl eq_refl)) as Hok.
    simpl in Hok. rewrite Hok, IH.
    + reflexivity.
    + intros b Hin. apply Hbefore. now right.
Qed.

Lemma test_loop_success (instances : list (string * P)) :
  (forall i, In i instances -> lists_librarys (snd i) = true) ->
  test_loop instances =
  (flat_map probe_calls instances,
   (map probed_instance instances, (true, ""))).
Proof.
  induction instances as [| [n s] rest IH]; intros Hall; [reflexivity |].
  rewrite test_loop_step.
  pose proof (Hall (n, s) (or_introl eq_refl)) as Hok.
  simpl in Hok. rewrite Hok, IH.
  - reflexivity.
  - intros i Hin. apply Hall. now right.
Qed.

(** X1: [test] stops at the first instance, in registry order, that lists
    no library: the verdict names that instance, the instances up to and
    including it have been probed, and the instances after it are neither
    called nor changed. *)
Theorem test_stops_at_first_failure :
  forall (self : PlexModule.t P) (before after : list (string * P))
         (name : string) (server0 : P),
    _instances self = before ++ (name, server0) :: after ->
    (forall b, In b before -> lists_librarys (snd b) = true) ->
    lists_librarys server0 = false ->
    value (test self) =
      ({| _configs := _configs self;
          _instances :=
            map probed_instance (before ++ [(name, server0)]) ++ after |},
       Some (false, unreachable name)) /\
    calls (test self) = flat_map probe_calls (before ++ [(name, server0)]).
Proof.
  intros self before after name server0 Hsplit Hbefore Hfail.
  rewrite test_unfold by (rewrite Hsplit; apply app_cons_not_nil).
  rewrite Hsplit, test_loop_first_failure by assumption.
  now split.
Qed.

(** X2: a [test] that succeeds leaves the registry exactly as a sweep of
    [scheduler_job] would, after probing every instance in order. *)
Theorem test_success_is_sweep :
  forall (self : PlexModule.t P),
    _instances self <> [] ->
    (forall i, In i (_instances self) -> lists_librarys (snd i) = true) ->
    value (test self) = (value (scheduler_job self), Some (true, "")) /\
    calls (test self) = flat_map probe_calls (_instances self).
Proof.
  intros self Hne Hall.
  rewrite test_unfold by exact Hne.
  rewrite test_loop_success by exact Hall.
  rewrite scheduler_job_spec. now split.
Qed.

Lemma test_loop_keys (instances : list (string * P)) :
  keys (fst (value (test_loop instances))) = keys instances.
Proof.
  induction instances as [| [n s] rest IH]; [reflexivity |].
  rewrite test_loop_step. destruct (lists_librarys s); simpl.
  - f_equal. exact IH.
  - reflexivity.
Qed.

Lemma test_loop_calls_incl (instances : list (string * P)) (c : Call) :
  In c (calls (test_loop instances)) ->
  In c (flat_map probe_calls instances).
Proof.
  induction instances as [| [n s] rest IH]; [intros [] |].
  rewrite test_loop_step. cbn [flat_map].
  destruct (lists_librarys s); unfold calls; cbn [fst]; intros Hin;
    apply in_or_app.
  - apply in_app_or in Hin. destruct Hin as [Hin | Hin]; [now left |].
    right. now apply IH.
  - now left.
Qed.

Lemma sweep_calls_reconnect (instances : list (string * P))
  (name : string) :
  In {| call_server := name; call_op := Reconnect |}
    (flat_map sweep_calls instances) <->
  exists server0, In (name, server0) instances /\
                  is_inactive server0 = true.
Proof.
  induction instances as [| [n s] rest IH]; simpl.
  - split; [intros [] | intros (s & [] & _)].
  - unfold sweep_calls at 1. simpl. split.
    + intros [Heq | Hin]; [discriminate Heq |].
      apply in_app_or in Hin. destruct Hin as [Hin | Hin].
      * destruct (is_inactive s) eqn:Hs; [| destruct Hin].
        destruct Hin as [[= ->] | []]. exists s. split; [now left | exact Hs].
      * apply IH in Hin. destruct Hin as (s' & Hin & Hs').
        exists s'. split; [now right | exact Hs'].
    + intros (s' & [[= -> ->] | Hin] & Hs'); right; apply in_or_app.
      * left. rewrite Hs'. now left.
      * right. apply IH. now exists s'.
Qed.

Lemma probe_calls_reconnect (instances : list (string * P))
  (name : string) :
  In {| call_server := name; call_op := Reconnect |}
    (flat_map probe_calls instances) ->
  exists server0, In (name, server0) instances /\
                  is_inactive server0 = true.
Proof.
  induction instances as [| [n s] rest IH]; cbn [flat_map]; [intros [] |].
  intros Hin. apply in_app_or in Hin. destruct Hin as [Hin | Hin].
  - unfold probe_calls in Hin. apply in_app_or in Hin.
    destruct Hin as [Hin | [Heq | []]]; [| discriminate Heq].
    destruct (proj1 (sweep_calls_reconnect [(n, s)] name)) as (s' & Hs' & Hi).
    { simpl. now rewrite app_nil_r. }
    destruct Hs' as [[= -> ->] | []]. exists s'. split; [now left | exact Hi].
  - destruct (IH Hin) as (s' & Hs' & Hi). exists s'. split; [now right | exact Hi].
Qed.

Lemma dict_get_probed (instances : list (string * P)) (name : string) :
  dict_get (map probed_instance instances) name =
  option_map probed (dict_get instances name).
Proof.
  induction instances as [| [n s] rest IH]; [reflexivity |].
  simpl. now destruct (String.eqb n name).
Qed.

Lemma keys_probed (instances : list (string * P)) :
  keys (map probed_instance instances) = keys instances.
Proof.
  unfold keys. rewrite map_map. reflexivity.
Qed.

(** X3: [test] neither registers nor unregisters anything: the
    configurations are untouched, the instance names and their order are
    the same afterwards, so a name resolves afterwards if and only if it
    resolved before. *)
Theorem test_keeps_registry_shape :
  forall (self : PlexModule.t P),
    _configs (fst (value (test self))) = _configs self /\
    keys (_instances (fst (value (test self)))) = keys (_instances self) /\
    (forall name,
        get_instance (fst (value (test self))) name = None <->
        get_instance self name = None).
Proof.
  intros self.
  assert (Hshape : _configs (fst (value (test self))) = _configs self /\
                   keys (_instances (fst (value (test self)))) =
                     keys (_instances self)).
  { destruct (nil_or_not (_instances self)) as [Hnil | Hne].
    - unfold test. rewrite Hnil. simpl. rewrite ?Hnil. now split.
    - rewrite test_unfold by exact Hne.
      simpl. split; [reflexivity | apply test_loop_keys]. }
  destruct Hshape as [Hc Hk]. split; [exact Hc | split; [exact Hk |]].
  intros name. unfold get_instance. rewrite !dict_get_none, Hk. tauto.
Qed.

(** X4: [test] reconnects an instance only if that instance reported
    itself inactive: a reconnect call in its trace is always on a
    registered instance whose [is_inactive] answered true. *)
Theorem test_reconnects_only_inactive :
  forall (self : PlexModule.t P) (name : string),
    In {| call_server := name; call_op := Reconnect |} (calls (test self)) ->
    exists server0, In (name, server0) (_instances self) /\
                    is_inactive server0 = true.
Proof.
  intros self name Hin.
  destruct (nil_or_not (_instances self)) as [Hnil | Hne].
  - unfold test in Hin. rewrite Hnil in Hin. destruct Hin.
  - rewrite test_unfold in Hin by exact Hne.
    unfold calls at 1 in Hin. cbn [fst] in Hin.
    apply test_loop_calls_incl in Hin.
    now apply probe_calls_reconnect.
Qed.

(** X5: after a sweep every name resolves to the connection it resolved
    to before, reconnected if it was inactive; the sweep adds and removes
    no name and leaves the configurations alone. *)
Theorem scheduler_job_lookup :
  forall (self : PlexModule.t P) (name : string),
    get_instance (value (scheduler_job self)) name =
      option_map probed (get_instance self name) /\
    keys (_instances (value (scheduler_job self))) =
      keys (_instances self) /\
    _configs (value (scheduler_job self)) = _configs self.
Proof.
  intros self name. rewrite scheduler_job_spec. unfold get_instance. simpl.
  split; [apply dict_get_probed | split; [apply keys_probed | reflexivity]].
Qed.

(** X6: the sweep calls [reconnect] on exactly the instances that report
    themselves inactive. *)
Theorem scheduler_job_reconnects_inactive :
  forall (self : PlexModule.t P) (name : string),
    In {| call_server := name; call_op := Reconnect |}
      (calls (scheduler_job self)) <->
    exists server0, In (name, server0) (_instances self) /\
                    is_inactive server0 = true.
Proof.
  intros self name. rewrite scheduler_job_spec.
  apply sweep_calls_reconnect.
Qed.

Lemma probed_stable (server0 : P) :
  is_inactive (probed server0) = false ->
  probed (probed server0) = probed server0.
Proof.
  intros Hactive. unfold probed at 1. now rewrite Hactive.
Qed.

Lemma map_probed_stable (instances : list (string * P)) :
  (forall i, In i instances -> is_inactive (probed (snd i)) = false) ->
  map probed_instance (map probed_instance instances) =
  map probed_instance instances.
Proof.
  induction instances as [| [n s] rest IH]; intros Hall; [reflexivity |].
  simpl. unfold probed_instance at 1. simpl.
  rewrite probed_stable by exact (Hall (n, s) (or_introl eq_refl)).
  unfold probed_instance at 2. simpl. f_equal.
  apply IH. intros i Hin. apply Hall. now right.
Qed.

Lemma sweep_calls_active (instances : list (string * P)) :
  (forall i, In i instances -> is_inactive (snd i) = false) ->
  flat_map sweep_calls instances =
  map (fun name => {| call_server := name; call_op := IsInactive |})
    (keys instances).
Proof.
  induction instances as [| [n s] rest IH]; intros Hall; [reflexivity |].
  cbn [flat_map keys map]. unfold sweep_calls at 1.
  rewrite (Hall (n, s) (or_introl eq_refl)). simpl. f_equal.
  apply IH. intros i Hin. apply Hall. now right.
Qed.

Lemma lists_librarys_probed (server0 : P) :
  is_inactive (probed server0) = false ->
  lists_librarys (probed server0) = lists_librarys server0.
Proof.
  intros Hactive. unfold lists_librarys. now rewrite probed_stable.
Qed.

Lemma test_loop_verdict_probed (instances : list (string * P)) :
  (forall i, In i instances -> is_inactive (probed (snd i)) = false) ->
  snd (value (test_loop (map probed_instance instances))) =
  snd (value (test_loop instances)).
Proof.
  induction instances as [| [n s] rest IH]; intros Hall; [reflexivity |].
  cbn [map]. unfold probed_instance at 1. cbn [fst snd].
  rewrite !test_loop_cons.
  rewrite lists_librarys_probed by exact (Hall (n, s) (or_introl eq_refl)).
  rewrite IH; [reflexivity |].
  intros i Hin. apply Hall. now right.
Qed.

(** X7: when every instance is active once the sweep has run, a second
    sweep changes nothing and reconnects nothing: it only asks each
    instance, in order, whether it is inactive. *)
Theorem scheduler_job_idempotent :
  forall (self : PlexModule.t P),
    (forall i, In i (_instances self) ->
               is_inactive (probed (snd i)) = false) ->
    value (scheduler_job (value (scheduler_job self))) =
      value (scheduler_job self) /\
    calls (scheduler_job (value (scheduler_job self))) =
      map (fun name => {| call_server := name; call_op := IsInactive |})
        (keys (_instances self)).
Proof.
  intros self Hall. rewrite !scheduler_job_spec. simpl. split.
  - now rewrite map_probed_stable.
  - rewrite sweep_calls_active.
    + now rewrite keys_probed.
    + intros i Hin. apply in_map_iff in Hin.
      destruct Hin as (j & <- & Hj). simpl. now apply Hall.
Qed.

(** X8: when every instance is active once the sweep has run, [test]
    gives the same verdict after the sweep as it would have given before
    it. *)
Theorem test_after_sweep :
  forall (self : PlexModule.t P),
    (forall i, In i (_instances self) ->
               is_inactive (probed (snd i)) = false) ->
    snd (value (test (value (scheduler_job self)))) =
    snd (value (test self)).
Proof.
  intros self Hall. rewrite scheduler_job_spec. cbn [value snd].
  destruct (nil_or_not (_instances self)) as [Hnil | Hne].
  - unfold test. simpl. now rewrite Hnil.
  - rewrite (test_nonempty self Hne).
    rewrite test_nonempty.
    + simpl. now rewrite test_loop_verdict_probed.
    + simpl. destruct (_instances self); [congruence | discriminate].
Qed.

End SweepFacts.

Lemma test_stops_at_first_failure_witness :
  value (test (gateway [("A", asleep); ("B", down); ("C", asleep)])) =
    (gateway [("A", canned_reconnect asleep); ("B", canned_reconnect down);
              ("C", asleep)],
     Some (false, unreachable "B")) /\
  calls (test (gateway [("A", asleep); ("B", down); ("C", asleep)])) =
    [{| call_server := "A"; call_op := IsInactive |};
     {| call_server := "A"; call_op := Reconnect |};
     {| call_server := "A"; call_op := GetLibrarys |};
     {| call_server := "B"; call_op := IsInactive |};
     {| call_server := "B"; call_op := Reconnect |};
     {| call_server := "B"; call_op := GetLibrarys |}].
Proof.
  refine (test_stops_at_first_failure
            (gateway [("A", asleep); ("B", down); ("C", asleep)])
            [("A", asleep)] [("C", asleep)] "B" down _ _ _);
    try reflexivity.
  intros b [<- | []]. reflexivity.
Defined.

Lemma test_success_is_sweep_witness :
  value (test (gateway [("A", asleep); ("B", bare)])) =
    (value (scheduler_job (gateway [("A", asleep); ("B", bare)])),
     Some (true, "")) /\
  calls (test (gateway [("A", asleep); ("B", bare)])) =
    [{| call_server := "A"; call_op := IsInactive |};
     {| call_server := "A"; call_op := Reconnect |};
     {| call_server := "A"; call_op := GetLibrarys |};
     {| call_server := "B"; call_op := IsInactive |};
     {| call_server := "B"; call_op := GetLibrarys |}].
Proof.
  refine (test_success_is_sweep (gateway [("A", asleep); ("B", bare)]) _ _).
  - discriminate.
  - intros i [<- | [<- | []]]; reflexivity.
Defined.

Lemma test_reconnects_only_inactive_witness :
  exists server0,
    In ("A", server0) (_instances (gateway [("A", asleep); ("B", bare)])) /\
    is_inactive server0 = true.
Proof.
  apply (test_reconnects_only_inactive
           (gateway [("A", asleep); ("B", bare)]) "A").
  simpl. right. left. reflexivity.
Defined.

Lemma scheduler_job_idempotent_witness :
  value (scheduler_job
           (value (scheduler_job (gateway [("A", asleep); ("B", bare)])))) =
    value (scheduler_job (gateway [("A", asleep); ("B", bare)])) /\
  calls (scheduler_job
           (value (scheduler_job (gateway [("A", asleep); ("B", bare)])))) =
    [{| call_server := "A"; call_op := IsInactive |};
     {| call_server := "B"; call_op := IsInactive |}].
Proof.
  refine (scheduler_job_idempotent (gateway [("A", asleep); ("B", bare)]) _).
  intros i [<- | [<- | []]]; reflexivity.
Defined.

Lemma test_after_sweep_witness :
  snd (value (test (value (scheduler_job
                             (gateway [("A", asleep); ("B", bare)]))))) =
  snd (value (test (gateway [("A", asleep); ("B", bare)]))).
Proof.
  refine (test_after_sweep (gateway [("A", asleep); ("B", bare)]) _).
  intros i [<- | [<- | []]]; reflexivity.
Defined.

Lemma scheduler_job_reconnects_inactive_witness :
  exists server0,
    In ("A", server0) (_instances (gateway [("A", asleep); ("B", bare)])) /\
    is_inactive server0 = true.
Proof.
  apply (proj1 (scheduler_job_reconnects_inactive
                  (gateway [("A", asleep); ("B", bare)]) "A")).
  simpl. right. left. reflexivity.
Defined.

(** ** More on fallback loops *)

Section FirstSomeMore.

Context {A R : Type}.
Variable f : A -> W (option R).

Lemma first_some_step (a : A) (l : list A) :
  first_some f (a :: l) =
  match value (f a) with
  | Some r => (calls (f a), Some r)
  | None => (calls (f a) ++ calls (first_some f l), value (first_some f l))
  end.
Proof.
  simpl. unfold bind, value, calls, ret.
  destruct (f a) as [ta [r|]]; simpl.
  - now rewrite app_nil_r.
  - now destruct (first_some f l).
Qed.

(** Only candidates of the list are tried. *)
Lemma first_some_calls_incl (l : list A) (c : Call) :
  In c (calls (first_some f l)) -> In c (calls_of f l).
Proof.
  induction l as [| a l IH]; [intros [] |].
  rewrite first_some_step. unfold calls_of. cbn [flat_map].
  destruct (value (f a)); unfold calls at 1; cbn [fst]; intros Hin;
    apply in_or_app.
  - now left.
  - apply in_app_or in Hin. destruct Hin as [Hin | Hin]; [now left |].
    right. now apply IH.
Qed.

(** A loop over two lists in a row is the loop over the first, followed
    by the loop over the second when the first found nothing. *)
Lemma first_some_app (l1 l2 : list A) :
  first_some f (l1 ++ l2) =
  match value (first_some f l1) with
  | Some r => first_some f l1
  | None =>
      (calls (first_some f l1) ++ calls (first_some f l2),
       value (first_some f l2))
  end.
Proof.
  induction l1 as [| a l1 IH].
  - simpl. now destruct (first_some f l2).
  - change ((a :: l1) ++ l2) with (a :: (l1 ++ l2)).
    rewrite !first_some_step.
    destruct (value (f a)) as [r|] eqn:Ha; [reflexivity |].
    rewrite IH.
    destruct (first_some f l1) as [t1 [r1|]]; unfold value, calls; simpl.
    + reflexivity.
    + now rewrite app_assoc.
Qed.

(** When each candidate costs at most [k] calls, the loop costs at most
    [k] calls per candidate. *)
Lemma first_some_calls_length (k : nat) (l : list A) :
  (forall a, In a l -> List.length (calls (f a)) <= k) ->
  List.length (calls (first_some f l)) <= k * List.length l.
Proof.
  induction l as [| a l IH]; intros Hk; [simpl; lia |].
  rewrite first_some_step.
  pose proof (Hk a (or_introl eq_refl)) as Ha.
  assert (Hl : List.length (calls (first_some f l)) <= k * List.length l).
  { apply IH. intros b Hb. apply Hk. now right. }
  destruct (value (f a)); unfold calls at 1; cbn [fst List.length].
  - lia.
  - rewrite length_app. lia.
Qed.

End FirstSomeMore.

(** ** More on existence resolution *)

Section ExistenceMore.

Context {P : Type} `{Backend P}.

(** Every way one turn of the loop can go. *)
Ltac turn_cases mediainfo itemid server0 :=
  unfold reports, media_exists_body, movie_by_id, movie_by_title,
    tv_episodes;
  cbn [fst snd];
  destruct (type mediainfo) as [[| |]|] eqn:?;
  [ destruct itemid as [id|]; cbn [truthy_opt_str];
    [ destruct (truthy_str id) eqn:?;
      [ destruct (get_iteminfo server0 id) as [found|] eqn:? |] |];
    try destruct (get_movies server0 (title mediainfo)
                    (original_title mediainfo) (year mediainfo)
                    (tmdb_id mediainfo)) as [[| first others]|] eqn:?
  | destruct (get_tv_episodes server0 (Some (title mediainfo))
                (Some (original_title mediainfo)) (Some (year mediainfo))
                (tmdb_id mediainfo) itemid) as [iid [[| s0 tvs]|]] eqn:? .. ];
  cbn.

(** The TV turn: one call, and a result exactly when the instance
    returns a non-empty season map. *)
Lemma reports_tv (name : string) (server0 : P) (mediainfo : MediaInfo)
  (itemid : option string) :
  type mediainfo <> Some MOVIE ->
  reports mediainfo itemid (name, server0) =
  ([{| call_server := name; call_op := GetTvEpisodes |}],
   match get_tv_episodes server0 (Some (title mediainfo))
           (Some (original_title mediainfo)) (Some (year mediainfo))
           (tmdb_id mediainfo) itemid with
   | (iid, Some (s0 :: tvs)) =>
       Some {| exist_type := TV; seasons := s0 :: tvs; server := name;
               itemid := iid |}
   | _ => None
   end).
Proof.
  intros Hty. turn_cases mediainfo itemid server0;
    try congruence; reflexivity.
Qed.


Lemma reports_calls (mediainfo : MediaInfo) (itemid0 : option string)
  (name : string) (server0 : P) (c : Call) :
  In c (calls (reports mediainfo itemid0 (name, server0))) ->
  call_server c = name /\
  (type mediainfo = Some MOVIE ->
   call_op c = GetMovies \/
   (call_op c = GetIteminfo /\ truthy_opt_str itemid0 = true)) /\
  (type mediainfo <> Some MOVIE -> call_op c = GetTvEpisodes).
Proof.
  turn_cases mediainfo itemid0 server0; intros Hin;
    repeat (destruct Hin as [<- | Hin]); try destruct Hin; cbn;
    (split; [reflexivity |]); split; intros Hty; try congruence;
    auto.
Qed.

Lemma reports_calls_length (mediainfo : MediaInfo)
  (itemid0 : option string) (name : string) (server0 : P) :
  List.length (calls (reports mediainfo itemid0 (name, server0))) <=
  turn_budget mediainfo itemid0.
Proof.
  unfold turn_budget, is_movie.
  turn_cases mediainfo itemid0 server0;
    try match goal with H : truthy_str _ = _ |- _ => rewrite H end;
    cbn; lia.
Qed.

(** X9: on a query that is not a movie, at the instance the loop has
    reached: a non-empty season map ends the call with that map, the
    item id the instance gave and the instance's name, after the one
    [get_tv_episodes] call on it; an absent or empty season map passes
    the instance over. *)
Theorem media_exists_tv_path :
  forall (self : PlexModule.t P) (mediainfo : MediaInfo)
         (itemid0 : option string) (before after : list (string * P))
         (name : string) (server0 : P),
    type mediainfo <> Some MOVIE ->
    _instances self = before ++ (name, server0) :: after ->
    (forall b, In b before -> value (reports mediainfo itemid0 b) = None) ->
    (forall iid s0 tvs,
        get_tv_episodes server0 (Some (title mediainfo))
          (Some (original_title mediainfo)) (Some (year mediainfo))
          (tmdb_id mediainfo) itemid0 = (iid, Some (s0 :: tvs)) ->
        value (media_exists self mediainfo itemid0) =
          Some {| exist_type := TV; seasons := s0 :: tvs; server := name;
                  itemid := iid |} /\
        calls (media_exists self mediainfo itemid0) =
          calls_of (reports mediainfo itemid0) before ++
          [{| call_server := name; call_op := GetTvEpisodes |}]) /\
    (forall iid,
        get_tv_episodes server0 (Some (title mediainfo))
          (Some (original_title mediainfo)) (Some (year mediainfo))
          (tmdb_id mediainfo) itemid0 = (iid, None) \/
        get_tv_episodes server0 (Some (title mediainfo))
          (Some (original_title mediainfo)) (Some (year mediainfo))
          (tmdb_id mediainfo) itemid0 = (iid, Some []) ->
        value (media_exists self mediainfo itemid0) =
          value (media_exists
                   {| _configs := _configs self; _instances := after |}
                   mediainfo itemid0)).
Proof.
  intros self mediainfo itemid0 before after name server0 Hty Hsplit
    Hbefore.
  pose proof (reports_tv name server0 mediainfo itemid0 Hty) as Hturn.
  unfold media_exists. rewrite !media_exists_loop_first_some, Hsplit.
  split.
  - intros iid s0 tvs Hget. rewrite Hget in Hturn.
    destruct (first_some_split (reports mediainfo itemid0) before after
                (name, server0) _ Hbefore (f_equal snd Hturn))
      as [Hv Hc].
    rewrite Hv, Hc. split; [reflexivity |].
    unfold calls_of. rewrite flat_map_app. simpl.
    rewrite Hturn. reflexivity.
  - intros iid Hget. cbn [_instances].
    assert (Hnone : value (reports mediainfo itemid0 (name, server0)) = None).
    { rewrite Hturn. destruct Hget as [-> | ->]; reflexivity. }
    rewrite first_some_app.
    destruct (first_some_none (reports mediainfo itemid0) before Hbefore)
      as [Hv _].
    rewrite Hv. cbn [value snd].
    now destruct (first_some_cons_none (reports mediainfo itemid0)
                    (name, server0) after Hnone) as [-> _].
Qed.


(** X11: [media_exists] only calls registered instances, and only the
    methods of the query's branch: for a movie [get_movies], and
    [get_iteminfo] only when a non-empty item id was passed; for anything
    else [get_tv_episodes] alone. *)
Theorem media_exists_call_discipline :
  forall (self : PlexModule.t P) (mediainfo : MediaInfo)
         (itemid0 : option string) (c : Call),
    In c (calls (media_exists self mediainfo itemid0)) ->
    In (call_server c) (keys (_instances self)) /\
    (type mediainfo = Some MOVIE ->
     call_op c = GetMovies \/
     (call_op c = GetIteminfo /\ truthy_opt_str itemid0 = true)) /\
    (type mediainfo <> Some MOVIE -> call_op c = GetTvEpisodes).
Proof.
  intros self mediainfo itemid0 c. unfold media_exists.
  rewrite media_exists_loop_first_some. intros Hin.
  apply first_some_calls_incl in Hin. unfold calls_of in Hin.
  apply in_flat_map in Hin. destruct Hin as ([name server0] & Hreg & Hin).
  apply reports_calls in Hin. destruct Hin as (Hname & Hops).
  split; [| exact Hops].
  rewrite Hname. unfold keys.
  change name with (fst (name, server0)). now apply in_map.
Qed.

(** X12: instances added at the end of the registry never change a
    match: a result found on a registry is the result, with the same
    backend calls, on any registry that extends it; without a match the
    extension alone decides, after the calls on the first part. *)
Theorem media_exists_append :
  forall (configs : list (string * MediaServerConf))
         (first second : list (string * P)) (mediainfo : MediaInfo)
         (itemid0 : option string),
    (forall r,
        value (media_exists {| _configs := configs; _instances := first |}
                 mediainfo itemid0) = Some r ->
        media_exists {| _configs := configs;
                        _instances := first ++ second |}
          mediainfo itemid0 =
        media_exists {| _configs := configs; _instances := first |}
          mediainfo itemid0) /\
    (value (media_exists {| _configs := configs; _instances := first |}
              mediainfo itemid0) = None ->
     value (media_exists {| _configs := configs;
                            _instances := first ++ second |}
              mediainfo itemid0) =
       value (media_exists {| _configs := configs; _instances := second |}
                mediainfo itemid0) /\
     calls (media_exists {| _configs := configs;
                            _instances := first ++ second |}
              mediainfo itemid0) =
       calls (media_exists {| _configs := configs; _instances := first |}
                mediainfo itemid0) ++
       calls (media_exists {| _configs := configs; _instances := second |}
                mediainfo itemid0)).
Proof.
  intros configs first second mediainfo itemid0.
  unfold media_exists. cbn [_instances].
  rewrite !media_exists_loop_first_some, first_some_app.
  split.
  - intros r Hr. now rewrite Hr.
  - intros Hnone. rewrite Hnone. now split.
Qed.

Lemma calls_on_app (name : string) (t1 t2 : list Call) :
  calls_on name (t1 ++ t2) = calls_on name t1 ++ calls_on name t2.
Proof. apply filter_app. Qed.

Lemma calls_on_other (name other : string) (trace : list Call) :
  (forall c, In c trace -> call_server c = other) ->
  other <> name ->
  calls_on name trace = [].
Proof.
  intros Hall Hneq. induction trace as [| c trace IH]; [reflexivity |].
  unfold calls_on in *. cbn [filter].
  rewrite (Hall c (or_introl eq_refl)).
  apply String.eqb_neq in Hneq. rewrite Hneq.
  apply IH. intros c' Hin. apply Hall. now right.
Qed.

Lemma reports_calls_on (mediainfo : MediaInfo) (itemid0 : option string)
  (instance : string * P) (name : string) :
  List.length (calls_on name (calls (reports mediainfo itemid0 instance))) <=
  if string_dec (fst instance) name
  then turn_budget mediainfo itemid0 else 0.
Proof.
  destruct instance as [n s]. cbn [fst].
  destruct (string_dec n name) as [Heq | Hneq].
  - etransitivity; [apply filter_length_le |].
    apply reports_calls_length.
  - rewrite (calls_on_other name n); [reflexivity | | exact Hneq].
    intros c Hin. now apply reports_calls in Hin.
Qed.

Lemma media_exists_loop_calls_on (instances : list (string * P))
  (mediainfo : MediaInfo) (itemid0 : option string) (name : string) :
  List.length
    (calls_on name
       (calls (first_some (reports mediainfo itemid0) instances))) <=
  turn_budget mediainfo itemid0 *
  count_occ string_dec (keys instances) name.
Proof.
  induction instances as [| i rest IH]; [simpl; lia |].
  rewrite first_some_step.
  pose proof (reports_calls_on mediainfo itemid0 i name) as Hi.
  cbn [keys map count_occ]. fold (keys rest).
  destruct (value (reports mediainfo itemid0 i)); unfold calls at 1;
    cbn [fst]; [| rewrite calls_on_app, length_app];
    destruct (string_dec (fst i) name); lia.
Qed.

(** X13: on each instance [media_exists] makes at most one backend call,
    or two on a movie query that carries a non-empty item id: for every
    name, the calls on that name number at most that budget for each
    registry entry under the name, so at most the budget itself when the
    names of the registry are distinct, and none for an unregistered
    name. *)
Theorem media_exists_call_bound :
  forall (self : PlexModule.t P) (mediainfo : MediaInfo)
         (itemid0 : option string) (name : string),
    List.length
      (calls_on name (calls (media_exists self mediainfo itemid0))) <=
      turn_budget mediainfo itemid0 *
      count_occ string_dec (keys (_instances self)) name /\
    (NoDup (keys (_instances self)) ->
     List.length
       (calls_on name (calls (media_exists self mediainfo itemid0))) <=
       turn_budget mediainfo itemid0) /\
    (~ In name (keys (_instances self)) ->
     calls_on name (calls (media_exists self mediainfo itemid0)) = []).
Proof.
  intros self mediainfo itemid0 name. unfold media_exists.
  rewrite media_exists_loop_first_some.
  pose proof (media_exists_loop_calls_on (_instances self) mediainfo
                itemid0 name) as Hbound.
  split; [exact Hbound | split].
  - intros Hnodup.
    pose proof (proj1 (NoDup_count_occ string_dec (keys (_instances self)))
                  Hnodup name) as Hone.
    nia.
  - intros Habsent.
    apply (count_occ_not_In string_dec) in Habsent.
    rewrite Habsent, Nat.mul_0_r in Hbound.
    destruct (calls_on name _); [reflexivity | simpl in Hbound; lia].
Qed.

End ExistenceMore.

Lemma media_exists_tv_path_witness :
  (value (media_exists (gateway [("A", bare); ("B", stocked "b1")])
            harbour (Some "b9")) =
     Some {| exist_type := TV; seasons := [(1, [1; 2]); (2, [1])]%Z;
             server := "B"; itemid := Some "Harbour" |} /\
   calls (media_exists (gateway [("A", bare); ("B", stocked "b1")])
            harbour (Some "b9")) =
     [{| call_server := "A"; call_op := GetTvEpisodes |};
      {| call_server := "B"; call_op := GetTvEpisodes |}]) /\
  value (media_exists (gateway [("A", bare); ("B", stocked "b1")])
           harbour None) =
    value (media_exists (gateway [("B", stocked "b1")]) harbour None).
Proof.
  split.
  - refine (proj1 (media_exists_tv_path
                     (gateway [("A", bare); ("B", stocked "b1")]) harbour
                     (Some "b9") [("A", bare)] [] "B" (stocked "b1")
                     _ _ _)
              (Some "Harbour") (1, [1; 2])%Z [(2, [1])]%Z _);
      try reflexivity; try (cbv; discriminate).
    intros b [<- | []]. reflexivity.
  - refine (proj2 (media_exists_tv_path
                     (gateway [("A", bare); ("B", stocked "b1")]) harbour
                     None [] [("B", stocked "b1")] "A" bare _ _ _)
              None _);
      try reflexivity; try (cbv; discriminate).
    + intros b [].
    + left. reflexivity.
Defined.


Lemma media_exists_call_bound_witness :
  List.length
    (calls_on "A"
       (calls (media_exists (gateway [("A", bare); ("B", stocked "b1")])
                 nightfall (Some "gone")))) <= 2.
Proof.
  refine (proj1 (proj2 (media_exists_call_bound
                          (gateway [("A", bare); ("B", stocked "b1")])
                          nightfall (Some "gone") "A")) _).
  repeat constructor; simpl; intuition discriminate.
Defined.

Lemma media_exists_call_discipline_witness :
  In "B" (keys (_instances (gateway [("A", bare); ("B", stocked "b1")]))) /\
  (type nightfall = Some MOVIE ->
   GetMovies = GetMovies \/
   (GetMovies = GetIteminfo /\ truthy_opt_str None = true)) /\
  (type nightfall <> Some MOVIE -> GetMovies = GetTvEpisodes).
Proof.
  apply (media_exists_call_discipline
           (gateway [("A", bare); ("B", stocked "b1")]) nightfall None
           {| call_server := "B"; call_op := GetMovies |}).
  simpl. right. left. reflexivity.
Defined.

Lemma media_exists_append_witness :
  media_exists (gateway ([("A", bare); ("B", stocked "b1")] ++
                         [("C", stocked "c1")])) nightfall None =
  media_exists {| _configs := _configs
                                (gateway ([("A", bare); ("B", stocked "b1")]
                                          ++ [("C", stocked "c1")]));
                  _instances := [("A", bare); ("B", stocked "b1")] |}
    nightfall None.
Proof.
  refine (proj1 (media_exists_append
                   (_configs (gateway ([("A", bare); ("B", stocked "b1")]
                                       ++ [("C", stocked "c1")])))
                   [("A", bare); ("B", stocked "b1")] [("C", stocked "c1")]
                   nightfall None)
            {| exist_type := MOVIE; seasons := []; server := "B";
               itemid := Some "b1" |} _).
  reflexivity.
Defined.

(** ** More on webhook routing *)

Lemma dict_get_some_key {V : Type} (d : list (string * V)) (key : string)
  (v : V) :
  dict_get d key = Some v -> In key (keys d).
Proof.
  intros Hget. destruct (in_dec string_dec key (keys d)) as [Hin | Hnot];
    [exact Hin |].
  apply dict_get_none in Hnot. congruence.
Qed.

Section WebhookMore.

Context {P : Type} `{Backend P}.
Variable get_config :
  PlexModule.t P -> string -> string -> option MediaServerConf.

(** X14: a non-empty source hint is the only instance ever tried: the
    parser makes at most the one decode call on the hinted name; when the
    hinted instance and its configuration are found its answer is the
    result even if it decoded nothing; when the configuration lookup
    finds nothing no backend is called at all. *)
Theorem webhook_parser_hint_only :
  forall (self : PlexModule.t P) (body form : string)
         (args : list (string * string)) (source : string),
    dict_get args "source" = Some source ->
    truthy_str source = true ->
    (calls (webhook_parser get_config self body form args) = [] \/
     calls (webhook_parser get_config self body form args) =
       [{| call_server := source; call_op := GetWebhookMessage |}]) /\
    (forall conf server0,
        get_config self source "plex" = Some conf ->
        get_instance self source = Some server0 ->
        webhook_parser get_config self body form args =
          ([{| call_server := source; call_op := GetWebhookMessage |}],
           get_webhook_message server0 body)) /\
    (get_config self source "plex" = None ->
     webhook_parser get_config self body form args = ret None).
Proof.
  intros self body form args source Harg Htruthy.
  unfold webhook_parser. rewrite Harg. cbn [truthy_opt_str].
  rewrite Htruthy.
  destruct (get_config self source "plex") as [conf|];
    destruct (get_instance self source) as [server0|];
    (split; [| split]); try (now left); try (now right);
    try discriminate; try reflexivity.
  - intros conf' s' _ [= <-]. reflexivity.
Qed.

(** X15: without a source hint the parser calls nothing but
    [get_webhook_message], and only on names that have a configuration of
    type [plex] and a registered instance. *)
Theorem webhook_parser_fallback_calls :
  forall (self : PlexModule.t P) (body form : string)
         (args : list (string * string)) (c : Call),
    truthy_opt_str (dict_get args "source") = false ->
    In c (calls (webhook_parser get_config self body form args)) ->
    call_op c = GetWebhookMessage /\
    In (call_server c) (keys (_instances self)) /\
    exists conf,
      In conf (values (_configs self)) /\ conf_type conf = "plex" /\
      conf_name conf = call_server c.
Proof.
  intros self body form args c Hsource.
  unfold webhook_parser. rewrite Hsource, webhook_loop_first_some.
  intros Hin. apply first_some_calls_incl in Hin.
  rewrite calls_of_decodes in Hin. apply in_map_iff in Hin.
  destruct Hin as ([name server0] & <- & Hcand). cbn [fst call_op call_server].
  apply candidates_in in Hcand.
  destruct Hcand as (conf & Hconf & Hty & Hname & Hget).
  split; [reflexivity | split].
  - exact (dict_get_some_key _ _ _ Hget).
  - now exists conf.
Qed.

(** X16: with or without a hint, an event returned by [webhook_parser]
    is what a registered instance made of the body. *)
Theorem webhook_parser_sound :
  forall (self : PlexModule.t P) (body form : string)
         (args : list (string * string)) (r : WebhookEventInfo),
    value (webhook_parser get_config self body form args) = Some r ->
    exists name server0,
      get_instance self name = Some server0 /\
      get_webhook_message server0 body = Some r.
Proof.
  intros self body form args r. unfold webhook_parser.
  destruct (truthy_opt_str (dict_get args "source")) eqn:Hsource.
  - destruct (dict_get args "source") as [source|]; [| discriminate].
    destruct (get_config self source "plex"); [| discriminate].
    destruct (get_instance self source) as [server0|] eqn:Hget;
      [| discriminate].
    intros Hr. now exists source, server0.
  - rewrite webhook_loop_first_some. intros Hr.
    destruct (first_some_inv _ _ _ Hr)
      as (before & [name server0] & after & Hsplit & _ & Hturn).
    assert (Hcand : In (name, server0)
                      (candidates self (values (_configs self)))).
    { rewrite Hsplit. apply in_or_app. right. now left. }
    apply candidates_in in Hcand.
    destruct Hcand as (conf & _ & _ & _ & Hget).
    now exists name, server0.
Qed.

End WebhookMore.

Lemma webhook_parser_hint_only_witness :
  webhook_parser config_by_name
    (gateway [("A", stocked "a1"); ("B", bare)]) "play" ""
    [("source", "B")] =
  ([{| call_server := "B"; call_op := GetWebhookMessage |}], None).
Proof.
  refine (proj1 (proj2 (webhook_parser_hint_only config_by_name
                          (gateway [("A", stocked "a1"); ("B", bare)])
                          "play" "" [("source", "B")] "B" _ _))
            (snd (plex_conf "B")) bare _ _);
    reflexivity.
Defined.

Lemma webhook_parser_fallback_calls_witness :
  GetWebhookMessage = GetWebhookMessage /\
  In "B" (keys (_instances (gateway [("A", bare); ("B", stocked "b1")]))) /\
  exists conf,
    In conf (values (_configs (gateway [("A", bare); ("B", stocked "b1")])))
    /\ conf_type conf = "plex" /\ conf_name conf = "B".
Proof.
  apply (webhook_parser_fallback_calls config_by_name
           (gateway [("A", bare); ("B", stocked "b1")]) "play" "" []
           {| call_server := "B"; call_op := GetWebhookMessage |}).
  - reflexivity.
  - simpl. right. left. reflexivity.
Defined.

Lemma webhook_parser_sound_witness :
  exists name server0,
    get_instance (gateway [("A", bare); ("B", stocked "b1")]) name =
      Some server0 /\
    get_webhook_message server0 "play" = Some played.
Proof.
  apply (webhook_parser_sound config_by_name
           (gateway [("A", bare); ("B", stocked "b1")]) "play" "" []).
  reflexivity.
Defined.

(** ** More on statistics and the passthroughs *)

Section CatalogMore.

Context {P : Type} `{Backend P}.

(** X17: [media_statistic] never hands back a count record: whenever it
    returns a list the list is empty, although the backends were asked:
    the named instance once, or every instance in registry order when no
    name is given. *)
Theorem media_statistic_never_collects :
  forall (self : PlexModule.t P) (server0 : option string),
    (forall r, value (media_statistic self server0) = Some r -> r = []) /\
    (forall name instance,
        server0 = Some name -> truthy_str name = true ->
        get_instance self name = Some instance ->
        media_statistic self server0 =
          ([{| call_server := name; call_op := GetMediasCount |}],
           Some [])) /\
    (truthy_opt_str server0 = false ->
     calls (media_statistic self server0) =
       map (fun i => {| call_server := fst i; call_op := GetMediasCount |})
         (_instances self)).
Proof.
  intros self server0. split; [| split].
  - intros r. unfold media_statistic.
    destruct (truthy_opt_str server0).
    + destruct server0 as [name|]; [| discriminate].
      destruct (get_instance self name) as [instance|]; [| discriminate].
      simpl. now intros [= <-].
    + destruct (media_statistic_loop_nil (_instances self)) as [Hv _].
      unfold value in *. cbn.
      destruct (media_statistic_loop (_instances self) []) as [tr v].
      cbn in *. subst v. now intros [= <-].
  - intros name instance -> Htruthy Hget. unfold media_statistic.
    cbn [truthy_opt_str]. now rewrite Htruthy, Hget.
  - intros Hfalsy. unfold media_statistic. rewrite Hfalsy.
    destruct (media_statistic_loop_nil (_instances self)) as [_ Hc].
    unfold calls in *. cbn.
    destruct (media_statistic_loop (_instances self) []) as [tr v].
    cbn in *. now rewrite app_nil_r.
Qed.

(** X18: for a registered server [mediaserver_tv_episodes] makes the one
    [get_tv_episodes] call and always returns a list: one entry per
    season of the backend's map, in the map's order, each with that
    season's episodes; the empty list when the backend has no map. *)
Theorem mediaserver_tv_episodes_seasons :
  forall (self : PlexModule.t P) (name item : string) (instance : P),
    get_instance self name = Some instance ->
    calls (mediaserver_tv_episodes self name item) =
      [{| call_server := name; call_op := GetTvEpisodes |}] /\
    exists infos,
      value (mediaserver_tv_episodes self name item) = Some infos /\
      map (fun i => (season i, episodes i)) infos =
        match snd (get_tv_episodes instance None None None None
                     (Some item)) with
        | Some seasoninfo => seasoninfo
        | None => []
        end.
Proof.
  intros self name item instance Hget.
  unfold mediaserver_tv_episodes. rewrite Hget.
  destruct (get_tv_episodes instance None None None None (Some item))
    as [iid [[| s0 tvs]|]]; cbn.
  - split; [reflexivity |]. now exists [].
  - split; [reflexivity |].
    eexists. split; [reflexivity |].
    destruct s0 as [n eps]. cbn. f_equal.
    rewrite map_map. rewrite <- (map_id tvs) at 2.
    apply map_ext. now intros [n' eps'].
  - split; [reflexivity |]. now exists [].
Qed.

(** X19: a single-instance passthrough touches no other instance: each
    of the five makes at most one backend call, and a call it makes is on
    the named server, which is then registered. *)
Theorem passthrough_calls_named_server :
  forall (self : PlexModule.t P) (name item : string) (count : Z)
         (c : Call),
    In c (calls (mediaserver_iteminfo self name item)) \/
    In c (calls (mediaserver_tv_episodes self name item)) \/
    In c (calls (mediaserver_playing self name count)) \/
    In c (calls (mediaserver_latest self name count)) \/
    In c (calls (mediaserver_play_url self name item)) ->
    call_server c = name /\ In name (keys (_instances self)).
Proof.
  intros self name item count c.
  unfold mediaserver_iteminfo, mediaserver_tv_episodes,
    mediaserver_playing, mediaserver_latest, mediaserver_play_url.
  destruct (get_instance self name) as [instance|] eqn:Hget.
  - pose proof (dict_get_some_key _ _ _ Hget) as Hreg.
    destruct (get_tv_episodes instance None None None None (Some item))
      as [iid [[| s0 tvs]|]]; cbn;
      intros Hin; repeat (destruct Hin as [Hin | Hin]);
      try contradiction; subst c; now split.
  - cbn. intros Hin. repeat (destruct Hin as [Hin | Hin]); contradiction.
Qed.

End CatalogMore.

Lemma media_statistic_never_collects_witness :
  media_statistic (gateway [("A", stocked "a1")]) (Some "A") =
  ([{| call_server := "A"; call_op := GetMediasCount |}], Some []).
Proof.
  refine (proj1 (proj2 (media_statistic_never_collects
                          (gateway [("A", stocked "a1")]) (Some "A")))
            "A" (stocked "a1") _ _ _);
    reflexivity.
Defined.

Lemma mediaserver_tv_episodes_seasons_witness :
  calls (mediaserver_tv_episodes (gateway [("A", stocked "a1")]) "A" "a1") =
    [{| call_server := "A"; call_op := GetTvEpisodes |}] /\
  exists infos,
    value (mediaserver_tv_episodes (gateway [("A", stocked "a1")])
             "A" "a1") = Some infos /\
    map (fun i => (season i, episodes i)) infos =
      match snd (get_tv_episodes (stocked "a1") None None None None
                   (Some "a1")) with
      | Some seasoninfo => seasoninfo
      | None => []
      end.
Proof.
  apply (mediaserver_tv_episodes_seasons (gateway [("A", stocked "a1")])
           "A" "a1" (stocked "a1")).
  reflexivity.
Defined.

Lemma passthrough_calls_named_server_witness :
  call_server {| call_server := "A"; call_op := GetResume |} = "A" /\
  In "A" (keys (_instances (gateway [("A", stocked "a1")]))).
Proof.
  apply (passthrough_calls_named_server (gateway [("A", stocked "a1")])
           "A" "a1" 20%Z {| call_server := "A"; call_op := GetResume |}).
  right. right. left. simpl. left. reflexivity.
Defined.

(** ** More on the validator *)

(** X20: the validator returns a dict exactly when the input is falsy,
    is a dict already, or is a string on which [json.loads] either
    raises [JSONDecodeError] or returns a dict; on every other input it
    returns something else or raises. *)
Theorem parse_json_fields_dict_iff :
  forall (json_loads : string -> Outcome PyValue) (v : PyValue),
    (exists d,
        UserBase.parse_json_fields json_loads v = Returns (PyDict d)) <->
    (truthy v = false \/ is_dict v = true \/
     exists s, v = PyStr s /\
               (json_loads s = Raises JSONDecodeError \/
                exists d, json_loads s = Returns (PyDict d))).
Proof.
  intros json_loads v. split.
  - intros [d Hres]. destruct (truthy v) eqn:Hv; [| now left]. right.
    destruct (is_str v) eqn:Hs.
    + destruct v; try discriminate Hs. right. exists s.
      split; [reflexivity |].
      rewrite parse_json_fields_str in Hres by exact Hv.
      destruct (json_loads s) as [p | [| |]]; try discriminate Hres.
      * right. exists d. congruence.
      * now left.
    + rewrite parse_json_fields_other in Hres by assumption.
      left. injection Hres as ->. reflexivity.
  - intros [Hf | [Hd | (s & -> & Hj)]].
    + exists []. now apply parse_json_fields_falsy.
    + destruct v; try discriminate Hd.
      destruct l as [| kv l].
      * exists []. now apply parse_json_fields_falsy.
      * exists (kv :: l). now apply parse_json_fields_other.
    + destruct (truthy (PyStr s)) eqn:Hv.
      * rewrite parse_json_fields_str by exact Hv.
        destruct Hj as [-> | (d & ->)]; eauto.
      * exists []. now apply parse_json_fields_falsy.
Qed.

(** X21: a dict passes through the validator unchanged, the empty one
    included, so validating again a result that is a dict changes
    nothing. *)
Theorem parse_json_fields_dict_fixed :
  forall (json_loads : string -> Outcome PyValue) (v : PyValue),
    is_dict v = true ->
    UserBase.parse_json_fields json_loads v = Returns v.
Proof.
  intros json_loads v Hd. destruct v; try discriminate Hd.
  unfold UserBase.parse_json_fields. cbn. now destruct l.
Qed.

Lemma parse_json_fields_dict_iff_witness :
  exists d,
    UserBase.parse_json_fields json_loads_excerpt (PyStr "{oops") =
      Returns (PyDict d).
Proof.
  apply (proj2 (parse_json_fields_dict_iff json_loads_excerpt
                  (PyStr "{oops"))).
  right. right. exists "{oops". split; [reflexivity | left; reflexivity].
Defined.

Lemma parse_json_fields_dict_fixed_witness :
  UserBase.parse_json_fields json_loads_excerpt
    (PyDict [("theme", PyStr "dark")]) =
  Returns (PyDict [("theme", PyStr "dark")]).
Proof.
  apply (parse_json_fields_dict_fixed json_loads_excerpt
           (PyDict [("theme", PyStr "dark")])).
  reflexivity.
Defined.

(** ** The connectivity test and the library catalogue *)

Section CatalogAfterTest.

Context {P : Type} `{Backend P}.



End CatalogAfterTest.

